(** * 5uaParser: the Meduza and RBC news harvesters

    A shallow embedding of [src/5ua-parser.js].  The file holds two programs:
    the sequential Meduza harvester (selector cascade, category filter) and
    the concurrent RBC harvester (retry wrapper, URL de-duplication, lexical
    sentiment, failure-isolated detail fetch, JSON and CSV writers).

    The headless browser is an outside collaborator.  It enters the model as
    data: what a query returns, whether a navigation attempt throws. *)

From Stdlib Require Import ZArith NArith Lia Ascii String.
From stdpp Require Import base tactics option list numbers sorting.

(** ** JavaScript strings

    A string is its sequence of UTF-16 code units. *)

Module JS.

Local Open Scope N_scope.

Definition jsstring : Type := list N.

(** Decoder for string literals of this file, which are UTF-8 bytes.  A code
    point above the basic plane becomes a surrogate pair. *)
Definition cont (b : N) : N := N.land b 63.

Definition surrogates (cp : N) : jsstring :=
  let v := cp - 65536 in
  [55296 + N.shiftr v 10; 56320 + N.land v 1023].

Fixpoint utf16_of_utf8 (bs : list N) : jsstring :=
  match bs with
  | [] => []
  | b :: rest =>
    if b <? 128 then b :: utf16_of_utf8 rest
    else if b <? 224 then
      match rest with
      | b2 :: r => (N.shiftl (N.land b 31) 6 + cont b2) :: utf16_of_utf8 r
      | _ => [65533]
      end
    else if b <? 240 then
      match rest with
      | b2 :: b3 :: r =>
        (N.shiftl (N.land b 15) 12 + N.shiftl (cont b2) 6 + cont b3)
          :: utf16_of_utf8 r
      | _ => [65533]
      end
    else
      match rest with
      | b2 :: b3 :: b4 :: r =>
        surrogates (N.shiftl (N.land b 7) 18 + N.shiftl (cont b2) 12
                    + N.shiftl (cont b3) 6 + cont b4)
          ++ utf16_of_utf8 r
      | _ => [65533]
      end
  end.

Definition js (s : string) : jsstring :=
  utf16_of_utf8 (map N_of_ascii (list_ascii_of_string s)).

(** [String.prototype.concat] / [+] on strings. *)
Definition concat (ss : list jsstring) : jsstring := mjoin ss.

(** [Array.prototype.join(sep)] on an array of strings. *)
Fixpoint join (sep : jsstring) (ss : list jsstring) : jsstring :=
  match ss with
  | [] => []
  | [s] => s
  | s :: rest => s ++ sep ++ join sep rest
  end.

(** The regular-expression class [\s]: WhiteSpace and LineTerminator. *)
Definition isWhiteSpace (c : N) : bool :=
  ((9 <=? c) && (c <=? 13)) || (c =? 32) || (c =? 160) || (c =? 5760)
  || ((8192 <=? c) && (c <=? 8202)) || (c =? 8232) || (c =? 8233)
  || (c =? 8239) || (c =? 8287) || (c =? 12288) || (c =? 65279).

Fixpoint dropWhiteSpace (s : jsstring) : jsstring :=
  match s with
  | c :: s' => if isWhiteSpace c then dropWhiteSpace s' else s
  | [] => []
  end.

(** [String.prototype.trim]. *)
Definition trim (s : jsstring) : jsstring :=
  rev (dropWhiteSpace (rev (dropWhiteSpace s))).

(** [s.split(/\s+/)]: the pieces between maximal runs of white space.  A
    run at either end leaves an empty piece there, and the empty string
    splits into one empty piece.  [in_run] tells that the previous unit
    belonged to a separator. *)
Fixpoint split_from (in_run : bool) (s : jsstring) : list jsstring :=
  match s with
  | [] => [[]]
  | c :: s' =>
    if isWhiteSpace c then
      if in_run then split_from true s' else [] :: split_from true s'
    else
      match split_from false s' with
      | w :: ws => (c :: w) :: ws
      | [] => [[c]]
      end
  end.

Definition split_whitespace (s : jsstring) : list jsstring :=
  split_from false s.

Fixpoint startsWith (w s : jsstring) : bool :=
  match w, s with
  | [], _ => true
  | _ :: _, [] => false
  | a :: w', b :: s' => (a =? b) && startsWith w' s'
  end.

(** [s.includes(w)]: [w] occurs in [s] as a contiguous run. *)
Fixpoint includes (s w : jsstring) : bool :=
  startsWith w s ||
  match s with
  | [] => false
  | _ :: s' => includes s' w
  end.

(** [String.prototype.toLowerCase], by code unit, as the RBC sentiment
    scorer needs it: Basic Latin, Latin-1 Supplement and Cyrillic are
    folded, units of other blocks are left as they are.  The lexicon of the
    scorer is lower-case Cyrillic; no letter of another block folds to one
    of its letters and folding neither makes nor removes white space, so
    the units left alone change no token count and no score.  The Meduza
    category filter, which compares arbitrary labels, does not use this
    table: see [Meduza.CaseFolding]. *)
Definition lower_unit (c : N) : N :=
  if (65 <=? c) && (c <=? 90) then c + 32
  else if (192 <=? c) && (c <=? 222) && negb (c =? 215) then c + 32
  else if (1024 <=? c) && (c <=? 1039) then c + 80
  else if (1040 <=? c) && (c <=? 1071) then c + 32
  else c.

Definition toLowerCase (s : jsstring) : jsstring := map lower_unit s.

(** The CSV escape [s.replace(/QUOTE/g, QUOTE QUOTE)], where QUOTE is the
    double-quote character (code unit 34). *)
Fixpoint double_quotes (s : jsstring) : jsstring :=
  match s with
  | [] => []
  | c :: s' => if c =? 34 then 34 :: 34 :: double_quotes s'
               else c :: double_quotes s'
  end.

(** Decimal text of an integer, as [String(n)] and [JSON.stringify(n)]
    print it. *)
Fixpoint digits_of (fuel : nat) (n : N) (acc : jsstring) : jsstring :=
  match fuel with
  | O => acc
  | S f =>
    let acc' := (48 + n mod 10) :: acc in
    if n <? 10 then acc' else digits_of f (n / 10) acc'
  end.

Definition string_of_N (n : N) : jsstring :=
  digits_of (S (N.to_nat (N.log2 n))) n [].

Definition string_of_Z (z : Z) : jsstring :=
  match z with
  | Zneg p => 45 :: string_of_N (Npos p)
  | _ => string_of_N (Z.to_N z)
  end.

(** Lexicographic order on code units, the order of [Array.prototype.sort]
    without a comparator. *)
Fixpoint leb (a b : jsstring) : bool :=
  match a, b with
  | [], _ => true
  | _ :: _, [] => false
  | x :: a', y :: b' => (x <? y) || ((x =? y) && leb a' b')
  end.

(** *** Insertion-ordered collections

    [Map], [Set] and plain objects with string keys iterate in insertion
    order; writing to a key that is present replaces its value and leaves
    its place. *)

Section Ordered.
Context {K V : Type} `{EqDecision K}.

(** [Map.prototype.set], and [o[k] = v] on an object. *)
Fixpoint map_set (k : K) (v : V) (m : list (K * V)) : list (K * V) :=
  match m with
  | [] => [(k, v)]
  | (k', v') :: m' =>
    if decide (k = k') then (k, v) :: m' else (k', v') :: map_set k v m'
  end.

(** [new Map(entries)], and an object literal read left to right. *)
Definition map_of_entries (es : list (K * V)) : list (K * V) :=
  foldl (fun m e => map_set e.1 e.2 m) [] es.

Definition map_keys (m : list (K * V)) : list K := m.*1.
Definition map_values (m : list (K * V)) : list V := m.*2.

(** [Map.prototype.get], and [o[k]]; [None] is [undefined]. *)
Fixpoint map_get (k : K) (m : list (K * V)) : option V :=
  match m with
  | [] => None
  | (k', v) :: m' => if decide (k = k') then Some v else map_get k m'
  end.

(** [Set.prototype.add]. *)
Fixpoint set_add (x : K) (s : list K) : list K :=
  match s with
  | [] => [x]
  | y :: s' => if decide (x = y) then s else y :: set_add x s'
  end.
End Ordered.

(** [Array.prototype.slice(0, end)]: a negative [end] counts from the back. *)
Definition slice_to {A} (end_ : Z) (l : list A) : list A :=
  let len := Z.of_nat (length l) in
  let k := if (end_ <? 0)%Z then Z.max (len + end_) 0 else Z.min end_ len in
  take (Z.to_nat k) l.

(** *** Values held by article records *)

Record Sentiment := {
  positive : Z;
  negative : Z;
  neutral : Z;
  sentiment : jsstring
}.

Inductive value :=
  | Str (s : jsstring)
  | Bool (b : bool)
  | Arr (a : list jsstring)
  | Obj (o : Sentiment).

Definition object : Type := list (jsstring * value).

(** Truthiness of [o[k]]. *)
Definition truthy (v : option value) : bool :=
  match v with
  | None => false
  | Some (Str s) => negb (bool_decide (s = []))
  | Some (Bool b) => b
  | Some (Arr _) | Some (Obj _) => true
  end.

(** [String(v)] / [v.toString()]. *)
Definition toString (v : value) : jsstring :=
  match v with
  | Str s => s
  | Bool true => js "true"
  | Bool false => js "false"
  | Arr a => join (js ",") a
  | Obj _ => js "[object Object]"
  end.

(** *** JSON.stringify *)

Definition hex_digit (d : N) : N := if d <? 10 then 48 + d else 87 + d.

Definition unicode_escape (c : N) : jsstring :=
  [92; 117; hex_digit (N.shiftr c 12); hex_digit (N.land (N.shiftr c 8) 15);
   hex_digit (N.land (N.shiftr c 4) 15); hex_digit (N.land c 15)].

Definition isHigh (c : N) : bool := (55296 <=? c) && (c <=? 56319).
Definition isLow (c : N) : bool := (56320 <=? c) && (c <=? 57343).

Definition escape_unit (c : N) : jsstring :=
  if c =? 8 then [92; 98] else if c =? 9 then [92; 116]
  else if c =? 10 then [92; 110] else if c =? 12 then [92; 102]
  else if c =? 13 then [92; 114] else if c =? 34 then [92; 34]
  else if c =? 92 then [92; 92]
  else if (c <? 32) || isHigh c || isLow c then unicode_escape c
  else [c].

(** A well-formed surrogate pair is kept; a lone surrogate is escaped. *)
Fixpoint escape (s : jsstring) : jsstring :=
  match s with
  | [] => []
  | c :: s' =>
    match s' with
    | d :: s'' =>
      if isHigh c && isLow d then c :: d :: escape s''
      else escape_unit c ++ escape s'
    | [] => escape_unit c
    end
  end.

Definition quoteJSON (s : jsstring) : jsstring := [34] ++ escape s ++ [34].

(** Line break and indentation in front of a member; [gap = None] is the
    compact form, [Some n] the indented one at depth [depth]. *)
Definition lead (gap : option nat) (depth : nat) : jsstring :=
  match gap with
  | None => []
  | Some n => 10 :: replicate (n * depth) 32
  end.

Definition block (opening closing : N) (gap : option nat) (depth : nat)
    (members : list jsstring) : jsstring :=
  match members with
  | [] => [opening; closing]
  | _ => [opening] ++ lead gap (S depth)
         ++ join (44 :: lead gap (S depth)) members
         ++ lead gap depth ++ [closing]
  end.

Definition member (gap : option nat) (k v : jsstring) : jsstring :=
  quoteJSON k ++ [58] ++ match gap with Some _ => [32] | None => [] end ++ v.

Definition stringify_sentiment (gap : option nat) (depth : nat) (o : Sentiment)
    : jsstring :=
  block 123 125 gap depth
    [member gap (js "positive") (string_of_Z (positive o));
     member gap (js "negative") (string_of_Z (negative o));
     member gap (js "neutral") (string_of_Z (neutral o));
     member gap (js "sentiment") (quoteJSON (sentiment o))].

Definition stringify_value (gap : option nat) (depth : nat) (v : value)
    : jsstring :=
  match v with
  | Str s => quoteJSON s
  | Bool true => js "true"
  | Bool false => js "false"
  | Arr a => block 91 93 gap depth (map quoteJSON a)
  | Obj o => stringify_sentiment gap depth o
  end.

Definition stringify_object (gap : option nat) (depth : nat) (o : object)
    : jsstring :=
  block 123 125 gap depth
    (map (fun kv => member gap kv.1 (stringify_value gap (S depth) kv.2)) o).

(** [JSON.stringify(data, null, 2)] on an array of records. *)
Definition stringify_records (data : list object) : jsstring :=
  block 91 93 (Some 2%nat) 0 (map (stringify_object (Some 2%nat) 1) data).

(** *** Exceptions and the file system *)

(** What a [throw] carries: an [Error] with its message, or [undefined]. *)
Inductive thrown :=
  | Undefined
  | Error (message : jsstring).

Inductive completion (A : Type) :=
  | Return (a : A)
  | Throw (e : thrown).
Arguments Return {A} a.
Arguments Throw {A} e.

(** Files by name and the console, as the writers leave them. *)
Record System := {
  files : list (jsstring * jsstring);
  console : list jsstring
}.

Definition writeFileSync (name content : jsstring) (s : System) : System :=
  {| files := map_set name content (files s); console := console s |}.

Definition console_log (line : jsstring) (s : System) : System :=
  {| files := files s; console := console s ++ [line] |}.

End JS.

Import JS.

(** ** The RBC harvester *)

Module RBC.

Local Open Scope Z_scope.

Record Config := {
  url : jsstring;
  maxArticles : Z;
  timeout : Z;
  articleTimeout : Z;
  outputJsonFile : jsstring;
  outputCsvFile : jsstring;
  maxRetries : nat;
  retryDelay : Z
}.

Definition config : Config := {|
  url := js "https://www.rbc.ru/";
  maxArticles := 10;
  timeout := 60000;
  articleTimeout := 30000;
  outputJsonFile := js "rbc-articles.json";
  outputCsvFile := js "rbc_news_articles.csv";
  maxRetries := 3;
  retryDelay := 1000
|}.

(** *** Navigation with retries

    What one browser page has gone through: how many navigations were
    issued on it, every [delay(ms)] that was awaited, and the lines printed
    on its behalf. *)
Record Run := {
  navigations : nat;
  delays : list Z;
  printed : list jsstring
}.

Definition fresh : Run := {| navigations := 0; delays := []; printed := [] |}.

Definition Task (A : Type) : Type := Run -> completion A * Run.

Definition delay (ms : Z) (r : Run) : Run :=
  {| navigations := navigations r; delays := delays r ++ [ms];
     printed := printed r |}.

Definition log (line : jsstring) (r : Run) : Run :=
  {| navigations := navigations r; delays := delays r;
     printed := printed r ++ [line] |}.

Definition retry_message (attempt maxRetries : nat) : jsstring :=
  js "Попытка " ++ string_of_Z (Z.of_nat attempt) ++ js "/"
  ++ string_of_Z (Z.of_nat maxRetries) ++ js " не удалась. Повторяю...".

(** The [for] loop of [tryWithRetry]: [remaining] iterations are left, the
    next one is number [attempt]. *)
Fixpoint retry_loop {A} (fn : Task A) (maxRetries : nat) (retryDelay : Z)
    (remaining attempt : nat) (lastError : thrown) : Task A :=
  match remaining with
  | O => fun r => (Throw lastError, r)
  | S n => fun r =>
    match fn r with
    | (Return a, r1) => (Return a, r1)
    | (Throw error, r1) =>
      retry_loop fn maxRetries retryDelay n (S attempt) error
        (delay retryDelay (log (retry_message attempt maxRetries) r1))
    end
  end.

Definition tryWithRetry {A} (fn : Task A) (maxRetries : nat) (retryDelay : Z)
    : Task A :=
  retry_loop fn maxRetries retryDelay maxRetries 1 Undefined.

(** [page.goto(...)] against a site whose answer to the [k]-th navigation is
    [site k]: [None] when the page loads, [Some m] when the navigation
    throws an [Error] with message [m]. *)
Definition goto (site : nat -> option jsstring) : Task unit :=
  fun r =>
    let k := S (navigations r) in
    let r' := {| navigations := k; delays := delays r; printed := printed r |} in
    match site k with
    | None => (Return tt, r')
    | Some m => (Throw (Error m), r')
    end.

(** *** Category and sentiment *)

Definition getCategory (url : jsstring) : jsstring :=
  if includes url (js "/politics/") then js "Политика"
  else if includes url (js "/economics/") then js "Экономика"
  else if includes url (js "/society/") then js "Общество"
  else if includes url (js "/rbcfreenews/") then js "Срочные новости"
  else js "Новости".

Definition positiveWords : list jsstring :=
  [js "рост"; js "успех"; js "подъем"; js "положительный"; js "хороший";
   js "выгод"; js "развити"].

Definition negativeWords : list jsstring :=
  [js "падение"; js "снижение"; js "кризис"; js "проблема"; js "конфликт";
   js "спад"; js "риск"].

(** The body of the [forEach]: the two scores after one more word. *)
Definition score (scores : Z * Z) (word : jsstring) : Z * Z :=
  let positiveScore :=
    if existsb (includes word) positiveWords then scores.1 + 1 else scores.1 in
  let negativeScore :=
    if existsb (includes word) negativeWords then scores.2 + 1 else scores.2 in
  (positiveScore, negativeScore).

Definition getTextSentiment (text : jsstring) : Sentiment :=
  let words := split_whitespace (toLowerCase text) in
  let scores := foldl score (0, 0) words in
  let positiveScore := scores.1 in
  let negativeScore := scores.2 in
  {| positive := positiveScore;
     negative := negativeScore;
     neutral := Z.of_nat (length words) - positiveScore - negativeScore;
     sentiment := if negativeScore <? positiveScore then js "positive"
                  else if positiveScore <? negativeScore then js "negative"
                  else js "neutral" |}.

(** *** Listing *)

(** An anchor matched by [selectors.articleLinks]. *)
Record Anchor := {
  innerText : jsstring;
  href : jsstring
}.

Record Article := {
  title : jsstring;
  article_url : jsstring
}.

#[global] Instance Article_eq_dec : EqDecision Article.
Proof. solve_decision. Defined.

(** The [page.evaluate] callback of the listing. *)
Definition listArticles (articleElements : list Anchor) : list Article :=
  List.filter
    (fun article => negb (bool_decide (title article = []))
                    && negb (bool_decide (article_url article = [])))
    (map (fun element => {| title := trim (innerText element);
                            article_url := href element |})
         articleElements).

Definition uniqueArticles (articles : list Article) : list Article :=
  map_values (map_of_entries (map (fun item => (article_url item, item)) articles)).

Definition limitedArticles (maxArticles : Z) (articles : list Article)
    : list Article :=
  slice_to maxArticles (uniqueArticles articles).

(** The stubs that go on to the detail stage. *)
Definition extractListing (maxArticles : Z) (articleElements : list Anchor)
    : list Article :=
  limitedArticles maxArticles (listArticles articleElements).

(** *** Detail extraction on one article page *)

(** What the article page answers to the queries of the detail extractor:
    the inner text of the first match of each selector, the [datetime]
    attribute and text of the date element, the [src] of the image. *)
Record ArticleDom := {
  contentElement : option jsstring;
  authorElement : option jsstring;
  tagElements : list jsstring;
  publishedAtElement : option (option jsstring * jsstring);
  imageElement : option jsstring;
  videoElement : bool
}.

Record Details := {
  content : jsstring;
  author : jsstring;
  tags : list jsstring;
  publishedAt : jsstring;
  imageUrl : jsstring;
  hasVideo : bool
}.

(** [a || b] on strings. *)
Definition or_else (a b : jsstring) : jsstring :=
  match a with [] => b | _ => a end.

Definition getElementText (element : option (option jsstring * jsstring))
    : jsstring :=
  match element with
  | Some (_, text) => trim text
  | None => []
  end.

Definition getElementAttr (element : option (option jsstring * jsstring))
    : jsstring :=
  match element with
  | Some (attr, text) => or_else (default [] attr) (trim text)
  | None => []
  end.

(** The [articlePage.evaluate] callback. *)
Definition extractDetails (document : ArticleDom) : Details := {|
  content := match contentElement document with
             | Some text => trim text
             | None => []
             end;
  author := match authorElement document with
            | Some text => trim text
            | None => js "РБК"
            end;
  tags := map trim (tagElements document);
  publishedAt := or_else (getElementAttr (publishedAtElement document))
                         (getElementText (publishedAtElement document));
  imageUrl := default [] (imageElement document);
  hasVideo := videoElement document
|}.

(** One article page of the site: how it answers each navigation, the
    message of the [Error] that evaluating the extractor on it throws (if
    it throws), and the document the extractor sees otherwise.  Opening,
    configuring and closing the page, and writing the debug and log files,
    are taken to succeed. *)
Record ArticlePage := {
  site : nat -> option jsstring;
  crash : option jsstring;
  document : ArticleDom
}.

(** The awaited part of the [try] block: navigate with retries, then
    evaluate the extractor. *)
Definition fetch (cfg : Config) (page : ArticlePage) : Task Details :=
  fun r =>
    match tryWithRetry (goto (site page)) (maxRetries cfg) (retryDelay cfg) r with
    | (Throw error, r1) => (Throw error, r1)
    | (Return _, r1) =>
      match crash page with
      | Some m => (Throw (Error m), r1)
      | None => (Return (extractDetails (document page)), r1)
      end
    end.

Definition article_fields (article : Article) : list (jsstring * value) :=
  [(js "title", Str (title article)); (js "url", Str (article_url article))].

Definition details_fields (details : Details) : list (jsstring * value) :=
  [(js "content", Str (content details)); (js "author", Str (author details));
   (js "tags", Arr (tags details));
   (js "publishedAt", Str (publishedAt details));
   (js "imageUrl", Str (imageUrl details));
   (js "hasVideo", Bool (hasVideo details))].

(** The record returned at the end of the [try] block. *)
Definition detailed (article : Article) (details : Details) (now : jsstring)
    : object :=
  map_of_entries
    (article_fields article ++ details_fields details
     ++ [(js "category", Str (getCategory (article_url article)));
         (js "sentiment", Obj (getTextSentiment (content details)));
         (js "parsedAt", Str now)]).

(** The record returned by the [catch] block. *)
Definition degraded (article : Article) (now message : jsstring) : object :=
  map_of_entries
    (article_fields article
     ++ [(js "category", Str (getCategory (article_url article)));
         (js "content", Str []);
         (js "author", Str (js "РБК"));
         (js "tags", Arr []);
         (js "hasVideo", Bool false);
         (js "parsedAt", Str now);
         (js "error", Str message)]).

(** *** What the concurrent tasks share *)

Record LogEntry := {
  logged_at : jsstring;
  logged_message : jsstring;
  logged_url : jsstring;
  logged_cause : jsstring
}.

(** The progress bar and the error log file. *)
Record Shared := {
  progress : nat;
  errorLog : list LogEntry
}.

Definition increment (s : Shared) : Shared :=
  {| progress := S (progress s); errorLog := errorLog s |}.

(** [error.message]; reading a property of [undefined] is a [TypeError]. *)
Definition message_of (error : thrown) : completion jsstring :=
  match error with
  | Error m => Return m
  | Undefined =>
    Throw (Error (js "Cannot read properties of undefined (reading 'message')"))
  end.

Definition logError (now message : jsstring) (error : thrown)
    (articleUrl : jsstring) (s : Shared) : completion unit * Shared :=
  match message_of error with
  | Throw e => (Throw e, s)
  | Return cause =>
    (Return tt,
     {| progress := progress s;
        errorLog := errorLog s ++ [{| logged_at := now; logged_message := message;
                                      logged_url := articleUrl;
                                      logged_cause := cause |}] |})
  end.

(** The last, unsuspended stretch of the per-article callback, from the
    return of [articlePage.close()] to its [return]: it runs at time [now]
    on the shared state, after the awaited part has ended as [outcome]. *)
Definition settle (now : jsstring) (article : Article)
    (outcome : completion Details) (s : Shared) : completion object * Shared :=
  match outcome with
  | Return details => (Return (detailed article details now), increment s)
  | Throw error =>
    match logError now (js "Ошибка при парсинге статьи") error
                   (article_url article) s with
    | (Throw e, s1) => (Throw e, s1)
    | (Return _, s1) =>
      match message_of error with
      | Throw e => (Throw e, increment s1)
      | Return message => (Return (degraded article now message), increment s1)
      end
    end
  end.

(** *** The join

    A schedule lists the tasks in the order in which they reach their last
    stretch, each with the clock reading at that moment.  [Promise.all]
    stores every fulfilment under the index of its promise and rejects with
    the first rejection.  An entry of the schedule that names no task, or a
    task that has settled, is passed over. *)
Definition Schedule : Type := list (nat * jsstring).

Fixpoint join_all (cfg : Config) (articles : list Article)
    (pages : nat -> ArticlePage) (schedule : Schedule)
    (slots : list (option object)) (s : Shared)
    : completion (list (option object)) * Shared :=
  match schedule with
  | [] => (Return slots, s)
  | (index, now) :: later =>
    match articles !! index, slots !! index with
    | Some article, Some None =>
      match settle now article (fetch cfg (pages index) fresh).1 s with
      | (Return record, s1) =>
        join_all cfg articles pages later (<[index := Some record]> slots) s1
      | (Throw e, s1) => (Throw e, s1)
      end
    | _, _ => join_all cfg articles pages later slots s
    end
  end.

(** The detail-fetch stage: [limitedArticles.map(async ...)] joined by
    [Promise.all].  [None] when some promise never settles under the
    schedule. *)
Definition detailStage (cfg : Config) (articles : list Article)
    (pages : nat -> ArticlePage) (schedule : Schedule) (s : Shared)
    : option (completion (list object) * Shared) :=
  match join_all cfg articles pages schedule
                 (replicate (length articles) None) s with
  | (Throw e, s1) => Some (Throw e, s1)
  | (Return slots, s1) =>
    match mapM id slots with
    | Some records => Some (Return records, s1)
    | None => None
    end
  end.

(** The site as one run of the harvester meets it. *)
Record World := {
  listingSite : nat -> option jsstring;
  articleElements : list Anchor;
  pages : nat -> ArticlePage
}.

Definition invalidArticles (detailedArticles : list object) : list object :=
  List.filter (fun article => negb (truthy (map_get (js "content") article)))
              detailedArticles.

(** [parseRBCWebsite]: the outer [catch] logs and returns the empty array;
    it throws only if logging itself does. *)
Definition parseRBCWebsite (cfg : Config) (world : World) (schedule : Schedule)
    (now : jsstring) (s : Shared) : option (completion (list object) * Shared) :=
  let general := js "Произошла общая ошибка при парсинге" in
  let caught error s1 :=
    match logError now general error [] s1 with
    | (Throw e, s2) => (Throw e, s2)
    | (Return _, s2) => (Return [], s2)
    end in
  match tryWithRetry (goto (listingSite world)) (maxRetries cfg)
                     (retryDelay cfg) fresh with
  | (Throw error, _) => Some (caught error s)
  | (Return _, _) =>
    match detailStage cfg (extractListing (maxArticles cfg) (articleElements world))
                      (pages world) schedule s with
    | None => None
    | Some (Throw error, s1) => Some (caught error s1)
    | Some (Return detailedArticles, s1) => Some (Return detailedArticles, s1)
    end
  end.

(** *** Writers *)

Definition saveToJson (data : list object) (filename : jsstring) (sys : System)
    : System :=
  match data with
  | [] => console_log (js "Нет данных для сохранения в JSON") sys
  | _ => console_log (js "Данные сохранены в файл: " ++ filename)
           (writeFileSync filename (stringify_records data) sys)
  end.

Definition quoted (s : jsstring) : jsstring := [34%N] ++ double_quotes s ++ [34%N].

(** One field of a CSV row. *)
Definition cell (item : object) (header : jsstring) : jsstring :=
  match map_get header item with
  | None => [34%N; 34%N]
  | Some (Obj o) => quoted (stringify_sentiment None 0 o)
  | Some (Arr a) => quoted (join (js "; ") a)
  | Some v => quoted (toString v)
  end.

(** The two nested [forEach] filling [allKeys]. *)
Definition allKeys (data : list object) : list jsstring :=
  foldl (fun keys item => foldl (fun keys key => set_add key keys) keys (map_keys item))
        [] data.

Definition csvContent (data : list object) : jsstring :=
  let headers := allKeys data in
  let rows := map (fun item => join (js ",") (map (cell item) headers)) data in
  join [10%N] (join (js ",") headers :: rows).

Definition saveToCsv (data : list object) (filename : jsstring) (sys : System)
    : System :=
  match data with
  | [] => console_log (js "Нет данных для сохранения в CSV") sys
  | _ => console_log (js "Данные сохранены в файл: " ++ filename)
           (writeFileSync filename ([65279%N] ++ csvContent data) sys)
  end.

(** *** Statistics of [runParser] *)

Definition has_sentiment (label : jsstring) (a : object) : bool :=
  match map_get (js "sentiment") a with
  | Some (Obj o) => bool_decide (sentiment o = label)
  | _ => false
  end.

Record SentimentStats := {
  stats_positive : nat;
  stats_negative : nat;
  stats_neutral : nat
}.

Definition sentimentStats (articles : list object) : SentimentStats := {|
  stats_positive := length (List.filter (has_sentiment (js "positive")) articles);
  stats_negative := length (List.filter (has_sentiment (js "negative")) articles);
  stats_neutral := length (List.filter (has_sentiment (js "neutral")) articles)
|}.

Definition totalArticles (articles : list object) : nat := length articles.

Definition articlesWithContent (articles : list object) : nat :=
  length (List.filter (fun a => truthy (map_get (js "content") a)) articles).

(** *** Further statistics of [runParser] and the side file *)

Definition validArticles (detailedArticles : list object) : list object :=
  List.filter (fun article => truthy (map_get (js "content") article))
              detailedArticles.

(** [a.tags && a.tags.length > 0]; a string has a length too. *)
Definition has_tags (a : object) : bool :=
  match map_get (js "tags") a with
  | Some (Arr l) => (0 <? Z.of_nat (length l))
  | Some (Str t) => negb (bool_decide (t = [])) && (0 <? Z.of_nat (length t))
  | _ => false
  end.

Definition articlesWithTags (articles : list object) : nat :=
  length (List.filter has_tags articles).

Definition articlesWithImages (articles : list object) : nat :=
  length (List.filter (fun a => truthy (map_get (js "imageUrl") a)) articles).

Definition articlesWithVideos (articles : list object) : nat :=
  length (List.filter (fun a => truthy (map_get (js "hasVideo") a)) articles).

(** The property name [article.category] turns into. *)
Definition category_key (article : object) : jsstring :=
  match map_get (js "category") article with
  | Some v => toString v
  | None => js "undefined"
  end.

(** The [reduce] behind [categoriesCount]:
    [acc[article.category] = (acc[article.category] || 0) + 1].  Entries
    stand in the order of first insertion; a label that reads as an array
    index would be listed first by the engine, and no statement below
    relies on the order. *)
Definition categoriesCount (articles : list object) : list (jsstring * nat) :=
  foldl (fun acc article =>
           map_set (category_key article)
                   (default 0%nat (map_get (category_key article) acc) + 1)%nat
                   acc)
        [] articles.

(** *** Request interception *)

Definition endsWith (s w : jsstring) : bool := startsWith (rev w) (rev s).

Definition heavy (resourceType : jsstring) : bool :=
  bool_decide (resourceType = js "image")
  || bool_decide (resourceType = js "media")
  || bool_decide (resourceType = js "font").

(** The handler installed on the listing page: [true] when it aborts. *)
Definition abortsOnListing (resourceType requestUrl : jsstring) : bool :=
  heavy resourceType
  || includes requestUrl (js "advertising")
  || includes requestUrl (js "analytics")
  || endsWith requestUrl (js ".css").

(** The handler installed on every article page. *)
Definition abortsOnArticle (resourceType requestUrl : jsstring) : bool :=
  heavy resourceType || includes requestUrl (js "advertising").

End RBC.

(** ** The Meduza harvester *)

Module Meduza.

Local Open Scope Z_scope.

(** *** The rendered listing, as the extractor queries it *)

(** An element handed back by a query, with what the extractor reads of it.
    The elements are HTML elements, whose [innerText] is a string. *)
Record Node := {
  innerText : jsstring;
  href : option jsstring;
  src : option jsstring;
  data_src : option jsstring
}.

(** A news block matched by one of the listing selectors, with the answers
    to the queries made inside it; [title_closest] and [block_closest] are
    [titleElement.closest('a')] and [element.closest('a')]. *)
Record Block := {
  block_title : option Node;
  block_link : option Node;
  title_closest : option Node;
  block_closest : option Node;
  block_category : option Node;
  block_date : option Node;
  block_image : option Node;
  block_summary : option Node
}.

(** A news link found inside a container; the parent element, when there is
    one, answers the category and the image query. *)
Record Parent := {
  parent_category : option Node;
  parent_image : option Node
}.

Record Link := {
  link_node : Node;
  parentElement : option Parent
}.

Record Document := {
  querySelectorAll : jsstring -> list Block;
  possibleContainers : list (list Link)
}.

Record Stub := {
  title : jsstring;
  url : jsstring;
  category : jsstring;
  date : option jsstring;
  imageUrl : jsstring;
  summary : option jsstring
}.

#[global] Instance Stub_eq_dec : EqDecision Stub.
Proof. solve_decision. Defined.

Definition selectors : list jsstring :=
  [js ".NewsBlock-first"; js ".NewsBlock"; js ".NewsCard"; js ".SimpleBlock";
   js "[data-testid=" ++ [34%N] ++ js "news-tape-item" ++ [34%N] ++ js "]"].

(** The selector loop.  Every [document.querySelectorAll] it issues is
    recorded, in order, next to the elements it settles on. *)
Fixpoint resolve (document : Document) (selectors : list jsstring)
    : list jsstring * list Block :=
  match selectors with
  | [] => ([], [])
  | selector :: rest =>
    let elements := querySelectorAll document selector in
    if (0 <? Z.of_nat (length elements)) then ([selector], elements)
    else let '(asked, found) := resolve document rest in
         (selector :: asked, found)
  end.

Definition or_else (a b : jsstring) : jsstring :=
  match a with [] => b | _ => a end.

Definition image_of (img : option Node) : jsstring :=
  match img with
  | Some node => or_else (default [] (src node))
                         (or_else (default [] (data_src node)) [])
  | None => []
  end.

Definition address (link : Node) : jsstring :=
  js "https://meduza.io" ++ default (js "null") (href link).

(** [String.prototype.toLowerCase] as the engine that runs the extractor
    provides it.  The listing is read for whatever case folding that is:
    nothing below depends on which letters it folds. *)
Class CaseFolding := { toLowerCase : jsstring -> jsstring }.

Section Engine.
Context {folding : CaseFolding}.

(** [selectedCategories.length === 0 || selectedCategories.some(...)]. *)
Definition categoryMatches (selectedCategories : list jsstring) (article : Stub)
    : bool :=
  (Z.of_nat (length selectedCategories) =? 0)
  || existsb (fun selectedCategory =>
                includes (toLowerCase (category article))
                         (toLowerCase selectedCategory))
             selectedCategories.

(** The stub built from one link of the fallback path. *)
Definition stub_of_link (link : Link) : Stub := {|
  title := or_else (trim (innerText (link_node link))) (js "Без названия");
  url := address (link_node link);
  category := match parentElement link with
              | Some parent =>
                match parent_category parent with
                | Some categoryEl => trim (innerText categoryEl)
                | None => js "Новости"
                end
              | None => js "Новости"
              end;
  date := None;
  imageUrl := match parentElement link with
              | Some parent => image_of (parent_image parent)
              | None => []
              end;
  summary := None
|}.

(** The loop over the containers: the first one that holds news links
    supplies the stubs, and the search stops there. *)
Fixpoint fallback (selectedCategories : list jsstring)
    (containers : list (list Link)) : list Stub :=
  match containers with
  | [] => []
  | links :: rest =>
    if (0 <? Z.of_nat (length links))
    then List.filter (categoryMatches selectedCategories) (map stub_of_link links)
    else fallback selectedCategories rest
  end.

(** The stub built from one matched news block. *)
Definition stub_of_block (element : Block) : Stub :=
  let titleElement :=
    match block_title element, block_link element with
    | None, Some link => Some link
    | t, _ => t
    end in
  let linkElement :=
    match block_title element, block_link element with
    | Some _, None =>
      match title_closest element with
      | Some a => Some a
      | None => block_closest element
      end
    | _, l => l
    end in
  {| title := match titleElement with
              | Some t => trim (innerText t)
              | None => js "Без названия"
              end;
     url := match linkElement with
            | Some l => address l
            | None => []
            end;
     category := match block_category element with
                 | Some c => trim (innerText c)
                 | None => js "Новости"
                 end;
     date := Some match block_date element with
                  | Some d => trim (innerText d)
                  | None => []
                  end;
     imageUrl := image_of (block_image element);
     summary := Some match block_summary element with
                     | Some p => trim (innerText p)
                     | None => []
                     end |}.

(** [categoryMatches && article.url]. *)
Definition kept (selectedCategories : list jsstring) (article : Stub) : bool :=
  categoryMatches selectedCategories article
  && negb (bool_decide (url article = [])).

(** The [page.evaluate] callback of the listing, on a document of HTML
    elements: it returns in both branches, an empty array when nothing is
    found. *)
Definition extractListing (document : Document)
    (selectedCategories : list jsstring) : completion (list Stub) :=
  let articleElements := (resolve document selectors).2 in
  if (Z.of_nat (length articleElements) =? 0)
  then Return (fallback selectedCategories (possibleContainers document))
  else Return (List.filter (kept selectedCategories)
                           (map stub_of_block articleElements)).

(** *** Article pages *)

Record DetailDom := {
  querySelector : jsstring -> option jsstring;
  authorElement : option jsstring;
  tagElements : list jsstring;
  videoElement : bool
}.

Definition contentSelectors : list jsstring :=
  [js ".GeneralMaterial-article"; js ".RichBlock"; js ".Material-body";
   js "article"].

(** The content loop, with the queries it issues. *)
Fixpoint resolveContent (document : DetailDom) (selectors : list jsstring)
    : list jsstring * option jsstring :=
  match selectors with
  | [] => ([], None)
  | selector :: rest =>
    match querySelector document selector with
    | Some element => ([selector], Some element)
    | None => let '(asked, found) := resolveContent document rest in
              (selector :: asked, found)
    end
  end.

Definition extractDetails (document : DetailDom) : list (jsstring * value) :=
  [(js "content", Str match (resolveContent document contentSelectors).2 with
                      | Some text => trim text
                      | None => []
                      end);
   (js "author", Str match authorElement document with
                     | Some text => trim text
                     | None => js "Meduza.io"
                     end);
   (js "tags", Arr (map trim (tagElements document)));
   (js "hasVideo", Bool (videoElement document))].

Definition optional (key : jsstring) (v : option jsstring)
    : list (jsstring * value) :=
  match v with
  | Some s => [(key, Str s)]
  | None => []
  end.

(** The stub as the object literal that built it. *)
Definition object_of (article : Stub) : object :=
  map_of_entries
    ([(js "title", Str (title article)); (js "url", Str (url article));
      (js "category", Str (category article))]
     ++ optional (js "date") (date article)
     ++ [(js "imageUrl", Str (imageUrl article))]
     ++ optional (js "summary") (summary article)).

(** The site: whether the listing loads, the listing itself, and for the
    article at each position either its page or the error thrown on the way
    to it. *)
Record World := {
  listing : completion Document;
  visit : nat -> completion DetailDom
}.

(** The body of the [for] loop over [limitedArticles]. *)
Definition detail (world : World) (i : nat) (article : Stub) : object :=
  if bool_decide (url article = []) then object_of article
  else match visit world i with
       | Return document =>
         map_of_entries (object_of article ++ extractDetails document)
       | Throw _ => object_of article
       end.

Definition parseMeduzaWebsite (world : World) (categories : list jsstring)
    (maxArticles : Z) : completion (list object) :=
  match listing world with
  | Throw error => Throw error
  | Return document =>
    match extractListing document categories with
    | Throw error => Throw error
    | Return articles =>
      Return (imap (detail world) (slice_to maxArticles articles))
    end
  end.

End Engine.

(** *** Writers *)

Definition saveToJson (data : list object) (filename : jsstring) (sys : System)
    : System :=
  console_log (js "Данные сохранены в файл: " ++ filename)
    (writeFileSync filename (stringify_records data) sys).

Definition quoted (s : jsstring) : jsstring := [34%N] ++ double_quotes s ++ [34%N].

Definition cell (v : value) : jsstring :=
  match v with
  | Arr a => quoted (join (js "; ") a)
  | Str [] | Bool false => quoted []
  | _ => quoted (toString v)
  end.

Definition csvContent (data : list object) : jsstring :=
  let headers := join (js ",") (map_keys (default [] (head data))) in
  let rows := map (fun item => join (js ",") (map cell (map_values item))) data in
  join [10%N] (headers :: rows).

Definition saveToCsv (data : list object) (filename : jsstring) (sys : System)
    : System :=
  match data with
  | [] => console_log (js "Нет данных для сохранения в CSV") sys
  | _ => console_log (js "Данные сохранены в файл: " ++ filename)
           (writeFileSync filename (csvContent data) sys)
  end.

(** *** The category menu *)

(** A menu element: its [href] attribute and its inner text. *)
Record MenuItem := {
  menu_href : option jsstring;
  menu_text : jsstring
}.

Record Category := {
  name : jsstring;
  category_url : jsstring
}.

Definition menuSelectors : list jsstring :=
  [js ".Header-menu a"; js ".Header-tabs a"; js "nav a";
   js "[data-testid=" ++ [34%N] ++ js "menu-item" ++ [34%N] ++ js "]"].

Fixpoint resolveMenu (query : jsstring -> list MenuItem)
    (selectors : list jsstring) : list MenuItem :=
  match selectors with
  | [] => []
  | selector :: rest =>
    let elements := query selector in
    if (0 <? Z.of_nat (length elements)) then elements
    else resolveMenu query rest
  end.

(** The body of the [forEach] over the menu elements: the category pushed
    for one element, if any. *)
Definition menu_entry (element : MenuItem) : option Category :=
  let text := trim (menu_text element) in
  match menu_href element with
  | None => None
  | Some href =>
    if negb (bool_decide (href = [])) && negb (bool_decide (text = []))
       && negb (includes href (js "http"))
       && negb (bool_decide (href = js "/"))
       && negb (includes text (js "Подписаться"))
       && negb (includes text (js "Поиск"))
    then Some {| name := text;
                 category_url := js "https://meduza.io"
                   ++ (if startsWith (js "/") href then href
                       else js "/" ++ href) |}
    else None
  end.

(** [parseMeduzaCategories]: the menu page either answers the queries or
    the way to it throws, and then the [catch] returns the empty array. *)
Definition parseMeduzaCategories
    (menu : completion (jsstring -> list MenuItem)) : list Category :=
  match menu with
  | Throw _ => []
  | Return query => omap menu_entry (resolveMenu query menuSelectors)
  end.

End Meduza.

(** ** The specification's wording

    Definitions that follow the specification text, to be compared with the
    ones above. *)

Module Spec.

Section FirstSeen.
Context {K : Type} `{EqDecision K}.

(** Every element once, at the place where it is first met. *)
Fixpoint first_seen (l : list K) : list K :=
  match l with
  | [] => []
  | x :: l' => x :: filter (fun y => y <> x) (first_seen l')
  end.
End FirstSeen.

(** Sorting by code units. *)
Fixpoint insert_sorted (x : jsstring) (l : list jsstring) : list jsstring :=
  match l with
  | [] => [x]
  | y :: l' => if leb x y then x :: l else y :: insert_sorted x l'
  end.

Definition sort (l : list jsstring) : list jsstring :=
  foldr insert_sorted [] l.

(** The sorted union of every key present across all records. *)
Definition sorted_union (data : list object) : list jsstring :=
  sort (first_seen (mjoin (map map_keys data))).

(** A token counts for a lexicon when it contains one of its entries. *)
Definition counts_for (lexicon : list jsstring) (token : jsstring) : bool :=
  existsb (includes token) lexicon.

Definition tally (lexicon : list jsstring) (tokens : list jsstring) : Z :=
  Z.of_nat (length (List.filter (counts_for lexicon) tokens)).

(** Lexical sentiment as section 4.5 words it. *)
Definition lexical_sentiment (content : jsstring) : Sentiment :=
  let tokens := split_whitespace (toLowerCase content) in
  let p := tally RBC.positiveWords tokens in
  let n := tally RBC.negativeWords tokens in
  {| positive := p;
     negative := n;
     neutral := (Z.of_nat (length tokens) - p - n)%Z;
     sentiment := if (n <? p)%Z then js "positive"
                  else if (p <? n)%Z then js "negative"
                  else js "neutral" |}.

Section Filter.
Context {folding : Meduza.CaseFolding}.

(** The category label contains the term, case-insensitively: the folded
    label contains the folded term. *)
Definition contains_ci (label term : jsstring) : Prop :=
  includes (Meduza.toLowerCase label) (Meduza.toLowerCase term) = true.

(** A stub passes the filter [F]: [F] is empty, or its label contains some
    term of [F]. *)
Definition passes (F : list jsstring) (stub : Meduza.Stub) : Prop :=
  F = [] \/ Exists (contains_ci (Meduza.category stub)) F.

#[global] Instance passes_dec F stub : Decision (passes F stub).
Proof. unfold passes, contains_ci. apply _. Defined.

End Filter.

(** The stub set the listing offers before any category filter: the
    matched blocks that resolve to a URL or, when no selector matches, the
    links of the first container that has any. *)
Definition first_links (containers : list (list Meduza.Link)) : list Meduza.Link :=
  default [] (head (filter (fun links => links <> []) containers)).

Definition stubs (document : Meduza.Document) : list Meduza.Stub :=
  match (Meduza.resolve document Meduza.selectors).2 with
  | [] => map Meduza.stub_of_link (first_links (Meduza.possibleContainers document))
  | found => filter (fun stub => Meduza.url stub <> [])
                    (map Meduza.stub_of_block found)
  end.

End Spec.

(** ** Reading a CSV row back

    A reader for rows of quoted fields separated by commas, a quote inside
    a field being written twice. *)

Module Csv.

Inductive state := FieldStart | InField | QuoteSeen.

(** [current] is the field being read, last unit first; [finished] holds
    the fields read so far, last field first. *)
Fixpoint read (st : state) (current : jsstring) (finished : list jsstring)
    (s : jsstring) : option (list jsstring) :=
  match s with
  | [] =>
    match st with
    | QuoteSeen => Some (rev (rev current :: finished))
    | _ => None
    end
  | c :: s' =>
    match st with
    | FieldStart =>
      if (c =? 34)%N then read InField [] finished s' else None
    | InField =>
      if (c =? 34)%N then read QuoteSeen current finished s'
      else read InField (c :: current) finished s'
    | QuoteSeen =>
      if (c =? 34)%N then read InField (34%N :: current) finished s'
      else if (c =? 44)%N then read FieldStart [] (rev current :: finished) s'
      else None
    end
  end.

Definition parse_row (row : jsstring) : option (list jsstring) :=
  read FieldStart [] [] row.

(** The text the RBC writer puts between the quotes of a field. *)
Definition rbc_text (item : object) (header : jsstring) : jsstring :=
  match map_get header item with
  | None => []
  | Some (Obj o) => stringify_sentiment None 0 o
  | Some (Arr a) => join (js "; ") a
  | Some v => toString v
  end.

(** The text the Meduza writer puts between the quotes of a field. *)
Definition meduza_text (v : value) : jsstring :=
  match v with
  | Arr a => join (js "; ") a
  | Str s => s
  | Bool true => js "true"
  | Bool false => []
  | Obj _ => js "[object Object]"
  end.

End Csv.

(** ** Notions used in the statements *)

(** What the awaited part of a task ends as; it depends on its own page
    only. *)
Definition outcome (cfg : RBC.Config) (page : RBC.ArticlePage)
    : completion RBC.Details :=
  (RBC.fetch cfg page RBC.fresh).1.

(** The record in slot [i] of the join comes from task [i]: from its own
    stub, its own page, and the clock reading of its own entry in the
    schedule. *)
Definition from_task (cfg : RBC.Config) (articles : list RBC.Article)
    (pages : nat -> RBC.ArticlePage) (schedule : RBC.Schedule)
    (i : nat) (record : object) : Prop :=
  exists article now s0 s1,
    articles !! i = Some article /\ (i, now) ∈ schedule
    /\ RBC.settle now article (outcome cfg (pages i)) s0 = (Return record, s1).

Definition degraded_record (r : object) : Prop := is_Some (map_get (js "error") r).

(** ** Sample inputs *)

Definition twice : list RBC.Anchor :=
  [ {| RBC.innerText := js "Morning headline";
       RBC.href := js "https://www.rbc.ru/politics/1" |};
    {| RBC.innerText := js "Evening headline";
       RBC.href := js "https://www.rbc.ru/politics/1" |} ].

Definition sample_article : RBC.Article :=
  {| RBC.title := js "Курс рубля"; RBC.article_url := js "https://www.rbc.ru/economics/7" |}.

Definition sample_details : RBC.Details :=
  {| RBC.content := js "рост рост кризис"; RBC.author := js "РБК";
     RBC.tags := [js "рубль"; js "ЦБ"]; RBC.publishedAt := js "2024-05-01T10:00:00+03:00";
     RBC.imageUrl := js ""; RBC.hasVideo := false |}.

Definition sample_record : object :=
  RBC.detailed sample_article sample_details (js "2024-05-01T07:30:00.000Z").

(** The record of an article that could not be loaded, and a result that
    holds it before a full record: neither has all the keys of the other. *)
Definition sample_failed : object :=
  RBC.degraded
    {| RBC.title := js "Школы"; RBC.article_url := js "https://www.rbc.ru/society/3" |}
    (js "2024-05-01T07:30:05.000Z") (js "net::ERR_TIMED_OUT").

Definition mixed_records : list object := [sample_failed; sample_record].

Definition flaky (k : nat) : option jsstring :=
  if (k <? 3)%nat then Some (js "net::ERR_TIMED_OUT") else None.

Definition sample_stubs : list RBC.Article :=
  [ {| RBC.title := js "Бюджет"; RBC.article_url := js "https://www.rbc.ru/politics/1" |};
    {| RBC.title := js "Курс рубля"; RBC.article_url := js "https://www.rbc.ru/economics/7" |};
    {| RBC.title := js "Школы"; RBC.article_url := js "https://www.rbc.ru/society/3" |} ].

Definition sample_dom : RBC.ArticleDom :=
  {| RBC.contentElement := Some (js " рост рост кризис ");
     RBC.authorElement := None;
     RBC.tagElements := [js "рубль"];
     RBC.publishedAtElement := Some (Some (js "2024-05-01T10:00:00+03:00"), js "1 мая");
     RBC.imageElement := None;
     RBC.videoElement := false |}.

Definition healthy : RBC.ArticlePage :=
  {| RBC.site := fun _ => None; RBC.crash := None; RBC.document := sample_dom |}.

Definition unreachable : RBC.ArticlePage :=
  {| RBC.site := fun _ => Some (js "net::ERR_TIMED_OUT"); RBC.crash := None;
     RBC.document := sample_dom |}.

Definition sample_pages (i : nat) : RBC.ArticlePage :=
  if (i =? 1)%nat then unreachable else healthy.

Definition sample_schedule : RBC.Schedule :=
  [(2%nat, js "2024-05-01T07:30:01.000Z"); (0%nat, js "2024-05-01T07:30:02.000Z");
   (1%nat, js "2024-05-01T07:30:09.000Z")].

Definition idle : RBC.Shared := {| RBC.progress := 0; RBC.errorLog := [] |}.

Definition sample_world : RBC.World :=
  {| RBC.listingSite := flaky;
     RBC.articleElements :=
       [ {| RBC.innerText := js " Бюджет "; RBC.href := js "https://www.rbc.ru/politics/1" |};
         {| RBC.innerText := js "Курс рубля"; RBC.href := js "https://www.rbc.ru/economics/7" |};
         {| RBC.innerText := js "Школы"; RBC.href := js "https://www.rbc.ru/society/3" |} ];
     RBC.pages := sample_pages |}.

Definition empty_document : Meduza.Document :=
  {| Meduza.querySelectorAll := fun _ => []; Meduza.possibleContainers := [] |}.

(** The spec's cascade scenario: no [.Card], three anchors. *)
Definition anchor_block (t h : string) : Meduza.Block :=
  let a := {| Meduza.innerText := js t; Meduza.href := Some (js h);
              Meduza.src := None; Meduza.data_src := None |} in
  {| Meduza.block_title := None; Meduza.block_link := Some a;
     Meduza.title_closest := None; Meduza.block_closest := None;
     Meduza.block_category := None; Meduza.block_date := None;
     Meduza.block_image := None; Meduza.block_summary := None |}.

Definition three_anchors : Meduza.Document :=
  {| Meduza.querySelectorAll := fun selector =>
       if bool_decide (selector = js "a[href]")
       then [anchor_block "One" "/news/1"; anchor_block "Two" "/news/2";
             anchor_block "Three" "/feature/3"]
       else [];
     Meduza.possibleContainers := [] |}.

Definition news_block (t h : string) : Meduza.Block :=
  let a := {| Meduza.innerText := js t; Meduza.href := Some (js h);
              Meduza.src := None; Meduza.data_src := None |} in
  {| Meduza.block_title := Some a; Meduza.block_link := Some a;
     Meduza.title_closest := None; Meduza.block_closest := None;
     Meduza.block_category := None; Meduza.block_date := None;
     Meduza.block_image := None; Meduza.block_summary := None |}.

Definition front_page : Meduza.Document :=
  {| Meduza.querySelectorAll := fun selector =>
       if bool_decide (selector = js ".NewsBlock")
       then [news_block "One" "/news/1"; news_block "Two" "/news/2"]
       else [];
     Meduza.possibleContainers := [] |}.

Definition article_page : Meduza.DetailDom :=
  {| Meduza.querySelector := fun selector =>
       if bool_decide (selector = js "article") then Some (js " Text ") else None;
     Meduza.authorElement := None;
     Meduza.tagElements := [];
     Meduza.videoElement := false |}.

(** The first article cannot be reached, the second can. *)
Definition meduza_site : Meduza.World :=
  {| Meduza.listing := Return front_page;
     Meduza.visit := fun i =>
       match i with
       | O => Throw (Error (js "Navigation timeout of 30000 ms exceeded"))
       | _ => Return article_page
       end |}.

Definition bears_error (slot : option object) : Prop :=
  from_option degraded_record False slot.

#[global] Instance bears_error_dec slot : Decision (bears_error slot).
Proof. destruct slot; simpl; apply _. Defined.

Definition in_category (k : jsstring) (articles : list object) : nat :=
  length (filter (fun a => RBC.category_key a = k) articles).

Definition run_record (r : object) : Prop :=
  (exists article details now, r = RBC.detailed article details now)
  \/ (exists article now message, r = RBC.degraded article now message).

Definition no_retries : RBC.Config :=
  {| RBC.url := RBC.url RBC.config; RBC.maxArticles := RBC.maxArticles RBC.config;
     RBC.timeout := RBC.timeout RBC.config;
     RBC.articleTimeout := RBC.articleTimeout RBC.config;
     RBC.outputJsonFile := RBC.outputJsonFile RBC.config;
     RBC.outputCsvFile := RBC.outputCsvFile RBC.config;
     RBC.maxRetries := 0; RBC.retryDelay := RBC.retryDelay RBC.config |}.

Definition offline : RBC.World :=
  {| RBC.listingSite := fun k =>
       Some (js "net::ERR_INTERNET_DISCONNECTED #" ++ string_of_Z (Z.of_nat k));
     RBC.articleElements := [];
     RBC.pages := sample_pages |}.

Definition crashing : RBC.ArticlePage :=
  {| RBC.site := fun _ => None;
     RBC.crash := Some (js "Execution context was destroyed");
     RBC.document := sample_dom |}.

(** A news block with a category label, and a listing of three of them. *)
Definition labelled_block (t h label : string) : Meduza.Block :=
  let a := {| Meduza.innerText := js t; Meduza.href := Some (js h);
              Meduza.src := None; Meduza.data_src := None |} in
  let tag := {| Meduza.innerText := js label; Meduza.href := None;
                Meduza.src := None; Meduza.data_src := None |} in
  {| Meduza.block_title := Some a; Meduza.block_link := Some a;
     Meduza.title_closest := None; Meduza.block_closest := None;
     Meduza.block_category := Some tag; Meduza.block_date := None;
     Meduza.block_image := None; Meduza.block_summary := None |}.

Definition labelled_page : Meduza.Document :=
  {| Meduza.querySelectorAll := fun selector =>
       if bool_decide (selector = js ".NewsBlock")
       then [labelled_block "One" "/news/1" "Политика";
             labelled_block "Two" "/news/2" "Экономика";
             labelled_block "Three" "/news/3" "Спорт"]
       else [];
     Meduza.possibleContainers := [] |}.

(** The case folding of the worked examples: the table of [JS.toLowerCase],
    which is the engine's folding on the letters those examples use. *)
Definition table_folding : Meduza.CaseFolding :=
  {| Meduza.toLowerCase := JS.toLowerCase |}.

(** * Properties *)

Example js_cyrillic : js "рост" = [1088; 1086; 1089; 1090]%N.
Proof. reflexivity. Qed.

Example split_example :
  split_whitespace (js " a  b ") = [js ""; js "a"; js "b"; js ""].
Proof. reflexivity. Qed.

Example string_of_Z_example :
  string_of_Z (-120) = js "-120" /\ string_of_Z 0 = js "0"
  /\ string_of_Z 1024 = js "1024".
Proof. repeat split; reflexivity. Qed.

Section OrderedFacts.
Context {K V : Type} `{EqDecision K}.
Implicit Types (m : list (K * V)) (s l : list K).

Lemma set_add_elem x s : x ∈ s -> set_add x s = s.
Proof.
  induction s as [|y s IH]; intros Hin; [by apply elem_of_nil in Hin|].
  simpl. destruct (decide (x = y)) as [->|Hne]; [done|].
  f_equal. apply IH. apply elem_of_cons in Hin as [?|?]; [done|done].
Qed.

Lemma set_add_fresh x s : x ∉ s -> set_add x s = s ++ [x].
Proof.
  induction s as [|y s IH]; intros Hnin; [done|].
  simpl. destruct (decide (x = y)) as [->|Hne].
  - exfalso. apply Hnin. left.
  - f_equal. apply IH. intros ?. apply Hnin. by right.
Qed.

Lemma map_keys_set k (v : V) m :
  map_keys (map_set k v m) = set_add k (map_keys m).
Proof.
  induction m as [|[k' v'] m IH]; [done|].
  simpl. destruct (decide (k = k')) as [->|Hne]; simpl; [done|].
  by rewrite <- IH.
Qed.

Lemma first_seen_filter (P : K -> Prop) `{!forall x, Decision (P x)} l :
  Spec.first_seen (filter P l) = filter P (Spec.first_seen l).
Proof.
  induction l as [|x l IH]; [done|].
  rewrite filter_cons. simpl. destruct (decide (P x)) as [HP|HP].
  - rewrite filter_cons_True by done. simpl. f_equal.
    rewrite IH, !list_filter_filter. apply list_filter_iff. tauto.
  - rewrite filter_cons_False by done. rewrite IH.
    rewrite list_filter_filter. apply list_filter_iff.
    intros y. split; [|tauto]. intros HPy. split; [done|]. by intros ->.
Qed.

Lemma foldl_set_add acc l :
  foldl (fun s x => set_add x s) acc l
  = acc ++ Spec.first_seen (filter (fun x => x ∉ acc) l).
Proof.
  revert acc. induction l as [|x l IH]; intros acc.
  - simpl. by rewrite app_nil_r.
  - simpl. rewrite IH. rewrite filter_cons.
    destruct (decide (x ∉ acc)) as [Hnin|Hin].
    + rewrite set_add_fresh by done. rewrite <- app_assoc. simpl.
      do 2 f_equal. rewrite <- first_seen_filter, list_filter_filter.
      f_equal. apply list_filter_iff. intros y.
      rewrite not_elem_of_app, list_elem_of_singleton. tauto.
    + apply dec_stable in Hin. by rewrite set_add_elem.
Qed.

Lemma filter_not_elem_of_nil l : filter (fun x => x ∉ @nil K) l = l.
Proof.
  induction l as [|x l IH]; [done|].
  rewrite filter_cons_True by apply not_elem_of_nil. by f_equal.
Qed.

Lemma foldl_set_add_nil l :
  foldl (fun s x => set_add x s) [] l = Spec.first_seen l.
Proof. by rewrite foldl_set_add, filter_not_elem_of_nil. Qed.

Lemma elem_of_first_seen x l : x ∈ Spec.first_seen l <-> x ∈ l.
Proof.
  induction l as [|y l IH]; [done|].
  simpl. rewrite !elem_of_cons, list_elem_of_filter, IH.
  destruct (decide (x = y)); tauto.
Qed.

Lemma NoDup_first_seen l : NoDup (Spec.first_seen l).
Proof.
  induction l as [|y l IH]; simpl; constructor.
  - rewrite list_elem_of_filter. tauto.
  - by apply NoDup_filter.
Qed.

Lemma map_keys_foldl m (es : list (K * V)) :
  map_keys (foldl (fun m e => map_set e.1 e.2 m) m es)
  = foldl (fun s x => set_add x s) (map_keys m) es.*1.
Proof.
  revert m. induction es as [|[k v] es IH]; intros m; [done|].
  simpl. by rewrite IH, map_keys_set.
Qed.

(** The keys of [new Map(entries)] are the keys of the entries, each at
    its first place. *)
Lemma map_keys_of_entries (es : list (K * V)) :
  map_keys (map_of_entries es) = Spec.first_seen es.*1.
Proof.
  unfold map_of_entries. by rewrite map_keys_foldl, foldl_set_add_nil.
Qed.

Lemma map_get_set k k' (v : V) m :
  map_get k (map_set k' v m)
  = if decide (k = k') then Some v else map_get k m.
Proof.
  induction m as [|[k2 v2] m IH]; simpl.
  - by destruct (decide (k = k')).
  - destruct (decide (k' = k2)) as [->|Hne]; simpl.
    + destruct (decide (k = k2)); done.
    + rewrite IH. destruct (decide (k = k2)) as [->|?]; [|done].
      destruct (decide (k2 = k')); [congruence|done].
Qed.

Lemma map_get_foldl k m (es : list (K * V)) :
  map_get k (foldl (fun m e => map_set e.1 e.2 m) m es)
  = match last (filter (fun e => e.1 = k) es) with
    | Some e => Some e.2
    | None => map_get k m
    end.
Proof.
  revert m. induction es as [|[k' v] es IH]; intros m; [done|].
  simpl. rewrite IH, filter_cons. simpl.
  destruct (decide (k' = k)) as [->|Hne].
  - rewrite last_cons. destruct (last _); [done|].
    rewrite map_get_set. by destruct (decide (k = k)).
  - destruct (last _); [done|]. rewrite map_get_set.
    destruct (decide (k = k')); [congruence|done].
Qed.

(** A key of [new Map(entries)] holds the value of the last entry
    written under it. *)
Lemma map_get_of_entries k (es : list (K * V)) :
  map_get k (map_of_entries es) = snd <$> last (filter (fun e => e.1 = k) es).
Proof.
  unfold map_of_entries. rewrite map_get_foldl. by destruct (last _).
Qed.

Lemma map_get_elem k (v : V) m :
  NoDup (map_keys m) -> (k, v) ∈ m -> map_get k m = Some v.
Proof.
  induction m as [|[k' v'] m IH]; intros Hnd Hin; [by apply elem_of_nil in Hin|].
  simpl in *. apply NoDup_cons in Hnd as [Hk Hnd].
  apply elem_of_cons in Hin as [Heq|Hin].
  - injection Heq as -> ->. by destruct (decide (k' = k')).
  - destruct (decide (k = k')) as [->|?]; [|by apply IH].
    exfalso. apply Hk. apply list_elem_of_fmap. by exists (k', v).
Qed.

Lemma map_get_Some_elem k (v : V) m : map_get k m = Some v -> (k, v) ∈ m.
Proof.
  induction m as [|[k' v'] m IH]; [done|]. simpl.
  destruct (decide (k = k')) as [->|?].
  - intros [= ->]. left.
  - intros ?. right. by apply IH.
Qed.

Lemma map_get_None k m : map_get k m = None <-> k ∉ map_keys m.
Proof.
  induction m as [|[k' v'] m IH]; simpl.
  - split; [intros _; apply not_elem_of_nil|done].
  - rewrite not_elem_of_cons. destruct (decide (k = k')) as [->|?].
    + split; [done|]. intros [? _]. done.
    + rewrite IH. tauto.
Qed.
End OrderedFacts.

Lemma slice_to_fmap {A B} (f : A -> B) (n : Z) (l : list A) :
  f <$> slice_to n l = slice_to n (f <$> l).
Proof. unfold slice_to. by rewrite length_fmap, fmap_take. Qed.

Lemma elem_of_slice_to {A} (x : A) (n : Z) (l : list A) :
  x ∈ slice_to n l -> x ∈ l.
Proof. unfold slice_to. intros Hin. eapply elem_of_sublist; [done|apply sublist_take]. Qed.

Lemma filter_fmap {A B} (f : A -> B) (P : B -> Prop) `{!forall y, Decision (P y)}
    (l : list A) :
  filter P (f <$> l) = f <$> filter (fun x => P (f x)) l.
Proof.
  induction l as [|x l IH]; [done|].
  rewrite fmap_cons, !filter_cons. destruct (decide (P (f x))); [|done].
  by rewrite fmap_cons, IH.
Qed.

Lemma NoDup_slice_to {A} (n : Z) (l : list A) : NoDup l -> NoDup (slice_to n l).
Proof.
  unfold slice_to. intros Hnd. eapply sublist_NoDup; [done|apply sublist_take].
Qed.

Lemma uniqueArticles_urls (articles : list RBC.Article) :
  RBC.article_url <$> RBC.uniqueArticles articles
  = Spec.first_seen (RBC.article_url <$> articles).
Proof.
  unfold RBC.uniqueArticles.
  set (es := map (fun item => (RBC.article_url item, item)) articles).
  assert (Hkeys : es.*1 = RBC.article_url <$> articles).
  { unfold es. rewrite <- list_fmap_compose. done. }
  rewrite <- Hkeys, <- map_keys_of_entries.
  assert (Hall : Forall (fun e => e.1 = RBC.article_url e.2) (map_of_entries es)).
  { apply Forall_forall. intros [k a] Hin.
    apply map_get_elem in Hin;
      [|rewrite map_keys_of_entries; apply NoDup_first_seen].
    rewrite map_get_of_entries in Hin.
    destruct (last _) as [e|] eqn:Hlast; [|done].
    injection Hin as <-. apply last_Some_elem_of, list_elem_of_filter in Hlast.
    destruct Hlast as [<- He]. unfold es in He.
    apply list_elem_of_fmap in He as (b & -> & _). done. }
  unfold map_values, map_keys. apply list_eq. intros i.
  rewrite !list_lookup_fmap. destruct (map_of_entries es !! i) as [[k a]|] eqn:Hi; [|done].
  simpl. f_equal. symmetry. eapply (Forall_lookup_1 _ _ _ _ Hall Hi).
Qed.

Lemma uniqueArticles_last (articles : list RBC.Article) (stub : RBC.Article) :
  stub ∈ RBC.uniqueArticles articles ->
  last (filter (fun a => RBC.article_url a = RBC.article_url stub) articles)
  = Some stub.
Proof.
  unfold RBC.uniqueArticles.
  set (es := map (fun item => (RBC.article_url item, item)) articles).
  intros Hin. apply list_elem_of_fmap in Hin as ([k a] & -> & Hin). simpl.
  apply map_get_elem in Hin;
    [|rewrite map_keys_of_entries; apply NoDup_first_seen].
  rewrite map_get_of_entries in Hin. unfold es in Hin.
  change (map ?f articles) with (f <$> articles) in Hin.
  rewrite filter_fmap, fmap_last in Hin. simpl in Hin.
  destruct (last (filter _ articles)) as [b|] eqn:Hlast; [|done].
  simpl in Hin. injection Hin as ->.
  assert (Hk : RBC.article_url a = k).
  { apply last_Some_elem_of, list_elem_of_filter in Hlast. apply Hlast. }
  rewrite <- Hlast. f_equal. apply list_filter_iff. intros x. simpl.
  by rewrite Hk.
Qed.

(** C1 (as amended).  The stubs of the RBC listing carry no URL twice; their
    URLs are the discovered URLs in first-seen order, cut to [maxArticles];
    and the stub kept for a URL is the last discovered entry with that URL. *)
Theorem listing_unique_last_wins (maxArticles : Z) (anchors : list RBC.Anchor) :
  let discovered := RBC.listArticles anchors in
  let stubs := RBC.extractListing maxArticles anchors in
  NoDup (RBC.article_url <$> stubs)
  /\ RBC.article_url <$> stubs
     = slice_to maxArticles (Spec.first_seen (RBC.article_url <$> discovered))
  /\ forall stub, stub ∈ stubs ->
       last (filter (fun a => RBC.article_url a = RBC.article_url stub) discovered)
       = Some stub.
Proof.
  intros discovered stubs. unfold stubs, RBC.extractListing, RBC.limitedArticles.
  fold discovered. rewrite slice_to_fmap, uniqueArticles_urls.
  split; [|split]; [|done|].
  - apply NoDup_slice_to, NoDup_first_seen.
  - intros stub Hin. apply uniqueArticles_last. by eapply elem_of_slice_to.
Qed.

(** C1, counterexample.  Two anchors with one URL: the stub that is kept
    bears the title of the second, so the first occurrence does not win. *)
Lemma listing_first_occurrence_loses :
  RBC.extractListing 10 twice
  = [ {| RBC.title := js "Evening headline";
         RBC.article_url := js "https://www.rbc.ru/politics/1" |} ]
  /\ ~ (forall stub, stub ∈ RBC.extractListing 10 twice ->
          head (filter (fun a => RBC.article_url a = RBC.article_url stub)
                       (RBC.listArticles twice))
          = Some stub).
Proof.
  split; [vm_compute; reflexivity|].
  intros Hfirst.
  specialize (Hfirst {| RBC.title := js "Evening headline";
                        RBC.article_url := js "https://www.rbc.ru/politics/1" |}).
  assert (Hin : {| RBC.title := js "Evening headline";
                   RBC.article_url := js "https://www.rbc.ru/politics/1" |}
                ∈ RBC.extractListing 10 twice).
  { replace (RBC.extractListing 10 twice)
      with [ {| RBC.title := js "Evening headline";
                RBC.article_url := js "https://www.rbc.ru/politics/1" |} ]
      by (vm_compute; reflexivity).
    left. }
  apply Hfirst in Hin. vm_compute in Hin. discriminate Hin.
Qed.

Lemma allKeys_first_seen (data : list object) :
  RBC.allKeys data = Spec.first_seen (mjoin (map map_keys data)).
Proof.
  unfold RBC.allKeys.
  assert (Hgen : forall acc,
    foldl (fun keys item =>
             foldl (fun keys key => set_add key keys) keys (map_keys item))
          acc data
    = foldl (fun keys key => set_add key keys) acc (mjoin (map map_keys data))).
  { induction data as [|item data IH]; intros acc; [done|].
    simpl. by rewrite IH, foldl_app. }
  by rewrite Hgen, foldl_set_add_nil.
Qed.

Lemma cell_missing (item : object) (key : jsstring) :
  key ∉ map_keys item -> RBC.cell item key = [34%N; 34%N].
Proof. intros Hk. apply map_get_None in Hk. unfold RBC.cell. by rewrite Hk. Qed.

(** C2 (as amended).  For a non-empty record sequence the RBC writer puts
    in the file a header row holding every key of every record exactly
    once, in the order in which the keys are first met (records in sequence
    order, keys in each record's own order), and a record that lacks a
    header's key gets the empty quoted string in that column. *)
Theorem csv_header_first_seen_union (data : list object) (filename : jsstring)
    (sys : System) :
  data <> [] ->
  let headers := Spec.first_seen (mjoin (map map_keys data)) in
  let rows := map (fun item => join (js ",") (map (RBC.cell item) headers)) data in
  files (RBC.saveToCsv data filename sys)
  = map_set filename ([65279%N] ++ join [10%N] (join (js ",") headers :: rows))
            (files sys)
  /\ NoDup headers
  /\ (forall key, key ∈ headers <-> exists item, item ∈ data /\ key ∈ map_keys item)
  /\ (forall item key, item ∈ data -> key ∈ headers -> key ∉ map_keys item ->
        RBC.cell item key = [34%N; 34%N]).
Proof.
  intros Hdata headers rows. split; [|split; [|split]].
  - destruct data as [|item data]; [done|].
    unfold RBC.saveToCsv, RBC.csvContent. rewrite allKeys_first_seen. done.
  - apply NoDup_first_seen.
  - intros key. unfold headers. rewrite elem_of_first_seen, list_elem_of_join.
    split.
    + intros (keys & Hkey & Hkeys). apply list_elem_of_fmap in Hkeys.
      destruct Hkeys as (item & -> & Hitem). eauto.
    + intros (item & Hitem & Hkey). exists (map_keys item). split; [done|].
      apply list_elem_of_fmap. eauto.
  - intros item key _ _. apply cell_missing.
Qed.

Lemma csv_header_first_seen_union_witness :
  mixed_records <> []
  /\ Spec.first_seen (mjoin (map map_keys mixed_records))
     = [js "title"; js "url"; js "category"; js "content"; js "author";
        js "tags"; js "hasVideo"; js "parsedAt"; js "error";
        js "publishedAt"; js "imageUrl"; js "sentiment"]
  /\ Spec.first_seen (mjoin (map map_keys mixed_records)) <> map_keys sample_failed
  /\ js "sentiment" ∈ Spec.first_seen (mjoin (map map_keys mixed_records))
  /\ (js "sentiment" ∉ map_keys sample_failed)
  /\ RBC.cell sample_failed (js "sentiment") = [34%N; 34%N]
  /\ js "error" ∈ Spec.first_seen (mjoin (map map_keys mixed_records))
  /\ (js "error" ∉ map_keys sample_record)
  /\ RBC.cell sample_record (js "error") = [34%N; 34%N]
  /\ files (RBC.saveToCsv mixed_records (js "out.csv") {| files := []; console := [] |})
     = [(js "out.csv",
         [65279%N]
         ++ join [10%N]
              (join (js ",") (Spec.first_seen (mjoin (map map_keys mixed_records)))
               :: map (fun item =>
                         join (js ",")
                           (map (RBC.cell item)
                              (Spec.first_seen (mjoin (map map_keys mixed_records)))))
                      mixed_records))].
Proof.
  assert (Hne : mixed_records <> []) by done.
  destruct (csv_header_first_seen_union mixed_records (js "out.csv")
              {| files := []; console := [] |} Hne)
    as (Hfile & _ & Hmem & Hcell).
  assert (Hfailed : sample_failed ∈ mixed_records) by (left).
  assert (Hfull : sample_record ∈ mixed_records) by (right; left).
  assert (Hsentiment : js "sentiment" ∉ map_keys sample_failed)
    by (apply (bool_decide_unpack _); vm_compute; reflexivity).
  assert (Herror : js "error" ∉ map_keys sample_record)
    by (apply (bool_decide_unpack _); vm_compute; reflexivity).
  assert (Hs : js "sentiment" ∈ Spec.first_seen (mjoin (map map_keys mixed_records))).
  { apply Hmem. exists sample_record. split; [exact Hfull|].
    apply (bool_decide_unpack _). vm_compute. reflexivity. }
  assert (He : js "error" ∈ Spec.first_seen (mjoin (map map_keys mixed_records))).
  { apply Hmem. exists sample_failed. split; [exact Hfailed|].
    apply (bool_decide_unpack _). vm_compute. reflexivity. }
  split; [exact Hne|]. split; [vm_compute; reflexivity|].
  split; [vm_compute; discriminate|].
  split; [exact Hs|]. split; [exact Hsentiment|].
  split; [exact (Hcell sample_failed (js "sentiment") Hfailed Hs Hsentiment)|].
  split; [exact He|]. split; [exact Herror|].
  split; [exact (Hcell sample_record (js "error") Hfull He Herror)|].
  exact Hfile.
Defined.

(** C2, counterexample.  The header the writer builds for one fully
    extracted record starts with title, url, content: it is not the sorted
    union of the keys. *)
Lemma csv_header_not_sorted :
  RBC.allKeys [sample_record]
  = [js "title"; js "url"; js "content"; js "author"; js "tags";
     js "publishedAt"; js "imageUrl"; js "hasVideo"; js "category";
     js "sentiment"; js "parsedAt"]
  /\ Spec.sorted_union [sample_record]
     = [js "author"; js "category"; js "content"; js "hasVideo";
        js "imageUrl"; js "parsedAt"; js "publishedAt"; js "sentiment";
        js "tags"; js "title"; js "url"]
  /\ RBC.allKeys [sample_record] <> Spec.sorted_union [sample_record].
Proof.
  split; [vm_compute; reflexivity|]. split; [vm_compute; reflexivity|].
  vm_compute. discriminate.
Qed.

(** The Meduza writer takes its header from the first record alone. *)
Lemma meduza_csv_header_first_record (first : object) (others : list object) :
  exists rows,
    Meduza.csvContent (first :: others)
    = join [10%N] (join (js ",") (map_keys first) :: rows)
    /\ length rows = S (length others).
Proof.
  eexists. split; [reflexivity|]. simpl. by rewrite length_map.
Qed.




(** The Meduza JSON writer has no guard of its own: whatever it is given, it
    writes the file and reports the data as saved; given no record, the
    file holds an empty array. *)
Lemma meduza_saveToJson_empty_writes (filename : jsstring) (sys : System) :
  Meduza.saveToJson [] filename sys
  = {| files := map_set filename (js "[]") (files sys);
       console := console sys ++ [js "Данные сохранены в файл: " ++ filename] |}
  /\ map_get filename (files (Meduza.saveToJson [] filename sys)) = Some (js "[]").
Proof.
  split; [reflexivity|].
  unfold Meduza.saveToJson, console_log, writeFileSync. simpl.
  rewrite map_get_set. by destruct (decide (filename = filename)).
Qed.


Section Retry.
Variables (site : nat -> option jsstring) (maxRetries : nat) (retryDelay : Z).

(** A loop that returns has stopped at the first navigation that loaded;
    all earlier ones threw, and each of those was followed by one wait. *)
Lemma retry_loop_returns remaining attempt lastError r r' :
  RBC.retry_loop (RBC.goto site) maxRetries retryDelay remaining attempt lastError r
  = (Return tt, r') ->
  exists k, (1 <= k <= remaining)%nat
    /\ RBC.navigations r' = (RBC.navigations r + k)%nat
    /\ site (RBC.navigations r + k)%nat = None
    /\ (forall j, (1 <= j < k)%nat -> is_Some (site (RBC.navigations r + j)%nat))
    /\ RBC.delays r' = RBC.delays r ++ replicate (k - 1) retryDelay.
Proof.
  revert attempt lastError r.
  induction remaining as [|n IH]; intros attempt lastError r; simpl; [done|].
  unfold RBC.goto at 1.
  destruct (site (S (RBC.navigations r))) as [m|] eqn:Hsite.
  - intros Hrun. apply IH in Hrun as (k & Hk & Hnav & Hload & Hfail & Hdel).
    simpl in *. exists (S k). split; [lia|]. split; [lia|].
    split; [by rewrite <- Hload; f_equal; lia|]. split.
    + intros j Hj. destruct (decide (j = 1%nat)) as [->|Hne].
      * replace (RBC.navigations r + 1)%nat with (S (RBC.navigations r)) by lia.
        by rewrite Hsite.
      * replace (RBC.navigations r + j)%nat
          with (S (RBC.navigations r + (j - 1))) by lia.
        apply Hfail. lia.
    + rewrite Hdel, <- app_assoc. f_equal.
      replace (S k - 1)%nat with (S (k - 1)) by lia. done.
  - intros [= <-]. exists 1%nat. simpl. split; [lia|]. split; [lia|].
    split; [by rewrite <- Hsite; f_equal; lia|]. split; [intros; lia|].
    by rewrite app_nil_r.
Qed.

(** A loop that throws has used every iteration: each navigation threw and
    each was followed by one wait; what it throws is the last error. *)
Lemma retry_loop_throws remaining attempt lastError r e r' :
  RBC.retry_loop (RBC.goto site) maxRetries retryDelay remaining attempt lastError r
  = (Throw e, r') ->
  RBC.navigations r' = (RBC.navigations r + remaining)%nat
  /\ (forall j, (1 <= j <= remaining)%nat ->
        is_Some (site (RBC.navigations r + j)%nat))
  /\ RBC.delays r' = RBC.delays r ++ replicate remaining retryDelay
  /\ e = match remaining with
         | O => lastError
         | S _ => match site (RBC.navigations r + remaining)%nat with
                  | Some m => Error m
                  | None => Undefined
                  end
         end.
Proof.
  revert attempt lastError r.
  induction remaining as [|n IH]; intros attempt lastError r; simpl.
  - intros [= <- <-]. split; [lia|]. split; [intros; lia|].
    by rewrite app_nil_r.
  - unfold RBC.goto at 1.
    destruct (site (S (RBC.navigations r))) as [m|] eqn:Hsite; [|done].
    intros Hrun. apply IH in Hrun as (Hnav & Hfail & Hdel & He).
    simpl in *. split; [lia|]. split; [|split].
    + intros j Hj. destruct (decide (j = 1%nat)) as [->|Hne].
      * replace (RBC.navigations r + 1)%nat with (S (RBC.navigations r)) by lia.
        by rewrite Hsite.
      * replace (RBC.navigations r + j)%nat
          with (S (RBC.navigations r + (j - 1))) by lia.
        apply Hfail. lia.
    + by rewrite Hdel, <- app_assoc.
    + rewrite He. destruct n as [|n'].
      * replace (RBC.navigations r + 1)%nat with (S (RBC.navigations r)) by lia.
        by rewrite Hsite.
      * by replace (RBC.navigations r + S (S n'))%nat
          with (S (RBC.navigations r + S n')) by lia.
Qed.

(** When some navigation within the budget loads, the wrapper returns. *)
Lemma retry_loop_loads remaining attempt lastError r k :
  (1 <= k <= remaining)%nat -> site (RBC.navigations r + k)%nat = None ->
  exists r', RBC.retry_loop (RBC.goto site) maxRetries retryDelay remaining
                            attempt lastError r = (Return tt, r').
Proof.
  intros Hk Hload.
  destruct (RBC.retry_loop _ _ _ _ _ _ r) as [[[]|e] r'] eqn:Hrun; [eauto|].
  apply retry_loop_throws in Hrun as (_ & Hfail & _).
  specialize (Hfail k Hk). rewrite Hload in Hfail. by destruct Hfail.
Qed.

(** When every navigation of the budget throws, so does the wrapper, and
    with an [Error] if the budget is not zero. *)
Lemma retry_loop_fails remaining attempt lastError r :
  (1 <= remaining)%nat ->
  (forall j, (1 <= j <= remaining)%nat -> is_Some (site (RBC.navigations r + j)%nat)) ->
  exists m r', site (RBC.navigations r + remaining)%nat = Some m
    /\ RBC.retry_loop (RBC.goto site) maxRetries retryDelay remaining
                      attempt lastError r = (Throw (Error m), r').
Proof.
  intros Hpos Hfail.
  destruct (RBC.retry_loop _ _ _ _ _ _ r) as [[[]|e] r'] eqn:Hrun.
  - apply retry_loop_returns in Hrun as (k & Hk & _ & Hload & _).
    specialize (Hfail k Hk). rewrite Hload in Hfail. by destruct Hfail.
  - apply retry_loop_throws in Hrun as (_ & _ & _ & He).
    destruct remaining as [|n]; [lia|].
    destruct (Hfail (S n)) as [m Hm]; [lia|].
    rewrite Hm in He. subst e. eauto.
Qed.
End Retry.

Lemma detailed_fields (article : RBC.Article) (details : RBC.Details) (now : jsstring) :
  let r := RBC.detailed article details now in
  map_get (js "title") r = Some (Str (RBC.title article))
  /\ map_get (js "url") r = Some (Str (RBC.article_url article))
  /\ map_get (js "content") r = Some (Str (RBC.content details))
  /\ map_get (js "author") r = Some (Str (RBC.author details))
  /\ map_get (js "tags") r = Some (Arr (RBC.tags details))
  /\ map_get (js "hasVideo") r = Some (Bool (RBC.hasVideo details))
  /\ map_get (js "sentiment") r
     = Some (Obj (RBC.getTextSentiment (RBC.content details)))
  /\ map_get (js "error") r = None.
Proof. repeat split; reflexivity. Qed.

Lemma degraded_fields (article : RBC.Article) (now message : jsstring) :
  let r := RBC.degraded article now message in
  map_get (js "title") r = Some (Str (RBC.title article))
  /\ map_get (js "url") r = Some (Str (RBC.article_url article))
  /\ map_get (js "content") r = Some (Str [])
  /\ map_get (js "author") r = Some (Str (js "РБК"))
  /\ map_get (js "tags") r = Some (Arr [])
  /\ map_get (js "hasVideo") r = Some (Bool false)
  /\ map_get (js "sentiment") r = None
  /\ map_get (js "error") r = Some (Str message).
Proof. repeat split; reflexivity. Qed.

Lemma outcome_cases (cfg : RBC.Config) (page : RBC.ArticlePage) :
  (1 <= RBC.maxRetries cfg)%nat ->
  ((exists j, (1 <= j <= RBC.maxRetries cfg)%nat /\ RBC.site page j = None)
   /\ RBC.crash page = None
   /\ outcome cfg page = Return (RBC.extractDetails (RBC.document page)))
  \/ ((exists j, (1 <= j <= RBC.maxRetries cfg)%nat /\ RBC.site page j = None)
      /\ exists m, RBC.crash page = Some m /\ outcome cfg page = Throw (Error m))
  \/ ((forall j, (1 <= j <= RBC.maxRetries cfg)%nat -> is_Some (RBC.site page j))
      /\ exists m, RBC.site page (RBC.maxRetries cfg) = Some m
                   /\ outcome cfg page = Throw (Error m)).
Proof.
  intros Hpos. unfold outcome, RBC.fetch, RBC.tryWithRetry.
  destruct (RBC.retry_loop _ _ _ _ _ _ RBC.fresh) as [[[]|e] r'] eqn:Hrun.
  - apply retry_loop_returns in Hrun as (k & Hk & _ & Hload & _).
    simpl in Hload. destruct (RBC.crash page) as [m|] eqn:Hcrash.
    + right. left. split; [by exists k|]. by exists m.
    + left. split; [by exists k|]. done.
  - right. right. apply retry_loop_throws in Hrun as (_ & Hfail & _ & He).
    simpl in *. split; [done|]. destruct (RBC.maxRetries cfg) as [|n]; [lia|].
    destruct (Hfail (S n)) as [m Hm]; [lia|]. rewrite Hm in He. subst e. eauto.
Qed.

Lemma outcome_defined (cfg : RBC.Config) (page : RBC.ArticlePage) :
  (1 <= RBC.maxRetries cfg)%nat -> outcome cfg page <> Throw Undefined.
Proof.
  intros Hpos.
  destruct (outcome_cases cfg page Hpos)
    as [(_ & _ & ->)|[(_ & m & _ & ->)|(_ & m & _ & ->)]]; done.
Qed.

(** A task whose awaited part did not throw [undefined] returns a record:
    the full one, or the degraded one. *)
Lemma settle_returns now article (o : completion RBC.Details) s :
  o <> Throw Undefined ->
  exists record s1, RBC.settle now article o s = (Return record, s1)
    /\ RBC.progress s1 = S (RBC.progress s).
Proof. intros Ho. destruct o as [d|[|m]]; [|done|]; simpl; eauto. Qed.

Lemma settle_record now article (o : completion RBC.Details) s record s1 :
  RBC.settle now article o s = (Return record, s1) ->
  match o with
  | Return details => record = RBC.detailed article details now
  | Throw (Error m) => record = RBC.degraded article now m
  | Throw Undefined => False
  end.
Proof. destruct o as [d|[|m]]; simpl; intros [= <- <-]; done. Qed.

Lemma join_all_slots cfg articles pages schedule :
  forall slots s out s',
    RBC.join_all cfg articles pages schedule slots s = (Return out, s') ->
    length out = length slots
    /\ forall i, out !! i = slots !! i
         \/ (slots !! i = Some None
             /\ exists record, out !! i = Some (Some record)
                  /\ from_task cfg articles pages schedule i record).
Proof.
  induction schedule as [|[index now] later IH]; intros slots s out s'; simpl.
  { intros [= <- <-]. split; [done|]. by left. }
  assert (Hskip :
    RBC.join_all cfg articles pages later slots s = (Return out, s') ->
    length out = length slots
    /\ forall i, out !! i = slots !! i
         \/ (slots !! i = Some None
             /\ exists record, out !! i = Some (Some record)
                  /\ from_task cfg articles pages ((index, now) :: later) i record)).
  { intros Hrun. apply IH in Hrun as [Hlen Hslots]. split; [done|].
    intros i. destruct (Hslots i) as [?|(? & record & ? & a & t & s0 & s1 & ? & ? & ?)];
      [by left|right].
    split; [done|]. exists record. split; [done|].
    exists a, t, s0, s1. split; [done|]. split; [by right|done]. }
  destruct (articles !! index) as [article|] eqn:Harticle; [|done].
  destruct (slots !! index) as [[filled|]|] eqn:Hslot; [done| |done].
  fold (outcome cfg (pages index)).
  destruct (RBC.settle now article (outcome cfg (pages index)) s)
    as [[record|e] s1] eqn:Hsettle; [|done].
  intros Hrun. apply IH in Hrun as [Hlen Hslots].
  rewrite length_insert in Hlen. split; [done|].
  intros i. destruct (decide (i = index)) as [->|Hne].
  - right. split; [done|]. exists record. split.
    + destruct (Hslots index) as [->|[Hnone _]].
      * apply list_lookup_insert_eq. by eapply lookup_lt_Some.
      * rewrite list_lookup_insert_eq in Hnone by (by eapply lookup_lt_Some).
        done.
    + exists article, now, s, s1. split; [done|]. split; [left|done].
  - destruct (Hslots i) as [Hsame|(Hnone & r & Hr & a & t & s0 & s2 & ? & ? & ?)].
    + left. by rewrite Hsame, list_lookup_insert_ne.
    + right. rewrite list_lookup_insert_ne in Hnone by done.
      split; [done|]. exists r. split; [done|].
      exists a, t, s0, s2. split; [done|]. split; [by right|done].
Qed.

Lemma join_all_complete cfg articles pages schedule :
  (forall i, outcome cfg (pages i) <> Throw Undefined) ->
  forall slots s,
    length slots = length articles ->
    exists out s',
      RBC.join_all cfg articles pages schedule slots s = (Return out, s')
      /\ forall i, (i < length articles)%nat ->
           i ∈ schedule.*1 \/ (exists r, slots !! i = Some (Some r)) ->
           exists r, out !! i = Some (Some r).
Proof.
  intros Hdef.
  induction schedule as [|[index now] later IH]; intros slots s Hlen; simpl.
  { exists slots, s. split; [done|]. intros i _ [Hin|?]; [|done].
    by apply elem_of_nil in Hin. }
  assert (Hskip : (slots !! index <> Some None \/ articles !! index = None) ->
    exists out s',
      RBC.join_all cfg articles pages later slots s = (Return out, s')
      /\ forall i, (i < length articles)%nat ->
           i ∈ index :: later.*1 \/ (exists r, slots !! i = Some (Some r)) ->
           exists r, out !! i = Some (Some r)).
  { intros Hno. destruct (IH slots s Hlen) as (out & s' & Hrun & Hfilled).
    exists out, s'. split; [done|]. intros i Hi [Hin|Hr]; [|by apply Hfilled; eauto].
    apply elem_of_cons in Hin as [->|Hin]; [|by apply Hfilled; eauto].
    apply Hfilled; [done|]. right.
    destruct Hno as [Hslot|Hart].
    - destruct (slots !! index) as [[r|]|] eqn:Hs; [eauto|done|].
      apply lookup_ge_None in Hs. lia.
    - apply lookup_ge_None in Hart. lia. }
  destruct (articles !! index) as [article|] eqn:Harticle;
    [|apply Hskip; by right].
  destruct (slots !! index) as [[filled|]|] eqn:Hslot;
    [apply Hskip; by left| |apply Hskip; by left].
  fold (outcome cfg (pages index)).
  destruct (settle_returns now article (outcome cfg (pages index)) s (Hdef index))
    as (record & s1 & -> & _).
  destruct (IH (<[index:=Some record]> slots) s1) as (out & s' & Hrun & Hfilled);
    [by rewrite length_insert|].
  exists out, s'. split; [done|]. intros i Hi Hin. apply Hfilled; [done|].
  destruct (decide (i = index)) as [->|Hne].
  - right. exists record. apply list_lookup_insert_eq. by eapply lookup_lt_Some.
  - destruct Hin as [Hin|[r Hr]].
    + apply elem_of_cons in Hin as [?|?]; [done|by left].
    + right. exists r. by rewrite list_lookup_insert_ne.
Qed.

Lemma mapM_id_lookup {A} (slots : list (option A)) (records : list A) :
  mapM id slots = Some records ->
  length records = length slots
  /\ forall i r, records !! i = Some r <-> slots !! i = Some (Some r).
Proof.
  intros Hm. apply mapM_Some in Hm. split; [symmetry; by eapply Forall2_length|].
  intros i r. split.
  - intros Hr. destruct (Forall2_lookup_r _ _ _ _ _ Hm Hr) as (x & Hx & Hid).
    simpl in Hid. by rewrite Hx, Hid.
  - intros Hs. destruct (Forall2_lookup_l _ _ _ _ _ Hm Hs) as (y & Hy & Hid).
    simpl in Hid. injection Hid as ->. done.
Qed.

(** Whatever the schedule, a stage that returns hands back one record per
    stub, the [i]-th made by the [i]-th task. *)
Lemma detailStage_records cfg articles pages schedule s records s' :
  RBC.detailStage cfg articles pages schedule s = Some (Return records, s') ->
  length records = length articles
  /\ forall i record, records !! i = Some record ->
       from_task cfg articles pages schedule i record.
Proof.
  unfold RBC.detailStage.
  destruct (RBC.join_all _ _ _ _ _ _) as [[out|e] s1] eqn:Hrun; [|done].
  destruct (mapM id out) as [rs|] eqn:Hm; [|done]. intros [= -> ->].
  apply join_all_slots in Hrun as [Hlen Hslots].
  apply mapM_id_lookup in Hm as [Hlen' Hlook].
  rewrite length_replicate in Hlen. split; [lia|].
  intros i record Hi. apply Hlook in Hi.
  destruct (Hslots i) as [Hsame|(_ & r & Hr & Htask)].
  - rewrite Hi in Hsame. symmetry in Hsame.
    apply lookup_replicate in Hsame as [? _]. done.
  - rewrite Hi in Hr. by injection Hr as ->.
Qed.

(** With a retry budget of at least one, a schedule in which every task
    comes up makes the stage return. *)
Lemma detailStage_returns cfg articles pages schedule s :
  (1 <= RBC.maxRetries cfg)%nat ->
  (forall i, (i < length articles)%nat -> i ∈ schedule.*1) ->
  exists records s',
    RBC.detailStage cfg articles pages schedule s = Some (Return records, s').
Proof.
  intros Hpos Hall. unfold RBC.detailStage.
  destruct (join_all_complete cfg articles pages schedule
              (fun i => outcome_defined cfg (pages i) Hpos)
              (replicate (length articles) None) s)
    as (out & s' & Hrun & Hfilled); [by rewrite length_replicate|].
  rewrite Hrun.
  assert (Hsome : is_Some (mapM id out)).
  { apply mapM_is_Some, Forall_forall. intros x Hx. simpl.
    apply list_elem_of_lookup in Hx as [i Hi].
    apply join_all_slots in Hrun as [Hlen _]. rewrite length_replicate in Hlen.
    destruct (Hfilled i) as [r Hr].
    - apply lookup_lt_Some in Hi. lia.
    - left. apply Hall. apply lookup_lt_Some in Hi. lia.
    - rewrite Hi in Hr. injection Hr as ->. done. }
  destruct Hsome as [records ->]. eauto.
Qed.

(** With a retry budget of at least one the run itself returns, whether
    the listing loads or not. *)
Lemma parseRBCWebsite_returns cfg world schedule now s :
  (1 <= RBC.maxRetries cfg)%nat ->
  (forall i,
     (i < length (RBC.extractListing (RBC.maxArticles cfg)
                                     (RBC.articleElements world)))%nat ->
     i ∈ schedule.*1) ->
  exists records s',
    RBC.parseRBCWebsite cfg world schedule now s = Some (Return records, s').
Proof.
  intros Hpos Hall. unfold RBC.parseRBCWebsite, RBC.tryWithRetry.
  destruct (RBC.retry_loop _ _ _ _ _ _ RBC.fresh) as [[[]|e] r'] eqn:Hrun.
  - destruct (detailStage_returns cfg _ (RBC.pages world) schedule s Hpos Hall)
      as (records & s' & ->). eauto.
  - apply retry_loop_throws in Hrun as (_ & Hfail & _ & He).
    destruct (RBC.maxRetries cfg) as [|n]; [lia|].
    destruct (Hfail (S n)) as [m Hm]; [lia|].
    rewrite Hm in He. subst e. simpl. eauto.
Qed.

(** C5.  With three attempts and no delay, a navigation that throws twice
    and then loads is issued three times, the wrapper returns, and the task
    built on it returns the full record.  In general the wrapper issues at
    most [maxRetries] navigations; it waits [retryDelay] after every one
    that throws; it returns at the first that loads, and throws once all of
    them have thrown. *)
Theorem retry_until_loaded :
  (forall site : nat -> option jsstring,
     is_Some (site 1%nat) -> is_Some (site 2%nat) -> site 3%nat = None ->
     (exists r', RBC.tryWithRetry (RBC.goto site) 3 0 RBC.fresh = (Return tt, r')
                 /\ RBC.navigations r' = 3%nat /\ RBC.delays r' = [0; 0]%Z)
     /\ forall cfg page article now s,
          RBC.maxRetries cfg = 3%nat -> RBC.retryDelay cfg = 0%Z ->
          RBC.site page = site -> RBC.crash page = None ->
          RBC.settle now article (RBC.fetch cfg page RBC.fresh).1 s
          = (Return (RBC.detailed article (RBC.extractDetails (RBC.document page)) now),
             RBC.increment s)
          /\ map_get (js "error")
               (RBC.detailed article (RBC.extractDetails (RBC.document page)) now)
             = None)
  /\ (forall (site : nat -> option jsstring) maxRetries retryDelay,
        match RBC.tryWithRetry (RBC.goto site) maxRetries retryDelay RBC.fresh with
        | (Return _, r') =>
          (1 <= RBC.navigations r' <= maxRetries)%nat
          /\ site (RBC.navigations r') = None
          /\ (forall j, (1 <= j < RBC.navigations r')%nat -> is_Some (site j))
          /\ RBC.delays r' = replicate (RBC.navigations r' - 1) retryDelay
        | (Throw _, r') =>
          RBC.navigations r' = maxRetries
          /\ (forall j, (1 <= j <= maxRetries)%nat -> is_Some (site j))
          /\ RBC.delays r' = replicate maxRetries retryDelay
        end).
Proof.
  split.
  - intros site [m1 H1] [m2 H2] H3.
    assert (Hrun : RBC.tryWithRetry (RBC.goto site) 3 0 RBC.fresh
                   = (Return tt,
                      {| RBC.navigations := 3; RBC.delays := [0; 0]%Z;
                         RBC.printed := [RBC.retry_message 1 3; RBC.retry_message 2 3] |})).
    { unfold RBC.tryWithRetry, RBC.retry_loop, RBC.goto. simpl.
      rewrite H1. simpl. rewrite H2. simpl. rewrite H3. done. }
    split; [eexists; split; [exact Hrun|done]|].
    intros cfg page article now s Hmax Hdelay Hsite Hcrash.
    unfold RBC.fetch. rewrite Hmax, Hdelay, Hsite, Hrun, Hcrash. done.
  - intros site maxRetries retryDelay. unfold RBC.tryWithRetry.
    destruct (RBC.retry_loop _ _ _ _ _ _ RBC.fresh) as [[[]|e] r'] eqn:Hrun.
    + apply retry_loop_returns in Hrun as (k & Hk & Hnav & Hload & Hfail & Hdel).
      simpl in *. subst k. done.
    + apply retry_loop_throws in Hrun as (Hnav & Hfail & Hdel & _). done.
Qed.

Lemma retry_until_loaded_witness :
  exists r', RBC.tryWithRetry (RBC.goto flaky) 3 0 RBC.fresh = (Return tt, r')
             /\ RBC.navigations r' = 3%nat /\ RBC.delays r' = [0; 0]%Z.
Proof.
  refine (proj1 (proj1 retry_until_loaded flaky _ _ _)).
  - by eexists.
  - by eexists.
  - reflexivity.
Defined.

Lemma filter_none {A} (P : A -> Prop) `{!forall x, Decision (P x)} (l : list A) :
  Forall (fun x => ~ P x) l -> filter P l = [].
Proof.
  induction 1 as [|x l Hx _ IH]; [done|]. by rewrite filter_cons_False.
Qed.

Lemma length_filter_one {A} (P : A -> Prop) `{!forall x, Decision (P x)}
    (l : list A) (k : nat) :
  (k < length l)%nat ->
  (forall i x, l !! i = Some x -> (P x <-> i = k)) ->
  length (filter P l) = 1%nat.
Proof.
  revert k. induction l as [|x l IH]; intros k Hk Hone; simpl in *; [lia|].
  rewrite filter_cons. destruct k as [|k].
  - rewrite decide_True by (by apply (Hone 0%nat x)). simpl. f_equal.
    apply length_zero_iff_nil, filter_none. apply Forall_forall.
    intros y Hy HP. apply list_elem_of_lookup in Hy as [i Hi].
    apply (Hone (S i) y Hi) in HP. done.
  - rewrite decide_False.
    + apply (IH k); [lia|]. intros i y Hi. rewrite (Hone (S i) y Hi). lia.
    + intros HP. apply (Hone 0%nat x) in HP; done.
Qed.

(** C4.  When the listing loads, every schedule in which all tasks come up
    makes the run return one record per stub of the listing, and the record
    at position [i] is the one the task of stub [i] returns on page [i] at
    its own clock reading: its title and URL are those of stub [i]. *)
Theorem listing_order_preserved (cfg : RBC.Config) (world : RBC.World)
    (schedule : RBC.Schedule) (now : jsstring) (s : RBC.Shared) :
  let stubs := RBC.extractListing (RBC.maxArticles cfg) (RBC.articleElements world) in
  (1 <= RBC.maxRetries cfg)%nat ->
  (exists j, (1 <= j <= RBC.maxRetries cfg)%nat /\ RBC.listingSite world j = None) ->
  (forall i, (i < length stubs)%nat -> i ∈ schedule.*1) ->
  exists records s',
    RBC.parseRBCWebsite cfg world schedule now s = Some (Return records, s')
    /\ length records = length stubs
    /\ forall i record, records !! i = Some record ->
         exists stub t,
           stubs !! i = Some stub /\ (i, t) ∈ schedule
           /\ (forall s0, (RBC.settle t stub
                             (RBC.fetch cfg (RBC.pages world i) RBC.fresh).1 s0).1
                          = Return record)
           /\ map_get (js "title") record = Some (Str (RBC.title stub))
           /\ map_get (js "url") record = Some (Str (RBC.article_url stub)).
Proof.
  intros stubs Hpos (j & Hj & Hload) Hall.
  destruct (detailStage_returns cfg stubs (RBC.pages world) schedule s Hpos Hall)
    as (records & s' & Hstage).
  exists records, s'. split.
  - unfold RBC.parseRBCWebsite, RBC.tryWithRetry.
    destruct (retry_loop_loads (RBC.listingSite world) (RBC.maxRetries cfg)
                (RBC.retryDelay cfg) (RBC.maxRetries cfg) 1 Undefined RBC.fresh j Hj Hload)
      as [r' ->].
    fold stubs. by rewrite Hstage.
  - apply detailStage_records in Hstage as [Hlen Htasks]. split; [done|].
    intros i record Hrecord.
    destruct (Htasks i record Hrecord) as (stub & t & s0 & s1 & Hstub & Ht & Hsettle).
    exists stub, t. split; [done|]. split; [done|].
    pose proof (settle_record _ _ _ _ _ _ Hsettle) as Hshape.
    unfold outcome in *.
    destruct (RBC.fetch cfg (RBC.pages world i) RBC.fresh).1 as [d|[|m]];
      [|done|]; subst record; done.
Qed.

Lemma label_counted_once (text : jsstring) (a : object) :
  map_get (js "sentiment") a = Some (Obj (RBC.getTextSentiment text)) ->
  ((if RBC.has_sentiment (js "positive") a then 1 else 0)
   + (if RBC.has_sentiment (js "negative") a then 1 else 0)
   + (if RBC.has_sentiment (js "neutral") a then 1 else 0) = 1)%nat.
Proof.
  intros Hs. unfold RBC.has_sentiment. rewrite Hs.
  unfold RBC.getTextSentiment. simpl.
  destruct (_ <? _)%Z; [reflexivity|]. destruct (_ <? _)%Z; reflexivity.
Qed.

Lemma no_label_counted (a : object) (label : jsstring) :
  map_get (js "sentiment") a = None -> RBC.has_sentiment label a = false.
Proof. intros Hs. unfold RBC.has_sentiment. by rewrite Hs. Qed.

Lemma sentiment_counts (articles : list object) :
  Forall (fun r => if decide (degraded_record r)
                   then map_get (js "sentiment") r = None
                   else exists text, map_get (js "sentiment") r
                                     = Some (Obj (RBC.getTextSentiment text)))
         articles ->
  (RBC.stats_positive (RBC.sentimentStats articles)
   + RBC.stats_negative (RBC.sentimentStats articles)
   + RBC.stats_neutral (RBC.sentimentStats articles)
   = length (filter (fun r => ~ degraded_record r) articles))%nat.
Proof.
  induction 1 as [|r rs Hr _ IH]; [done|]. simpl in *.
  rewrite filter_cons. destruct (decide (degraded_record r)) as [Hd|Hd].
  - rewrite decide_False by tauto.
    rewrite !(no_label_counted r) by done. done.
  - rewrite decide_True by done. destruct Hr as [text Hr].
    pose proof (label_counted_once text r Hr) as Hone. simpl.
    destruct (RBC.has_sentiment (js "positive") r),
             (RBC.has_sentiment (js "negative") r),
             (RBC.has_sentiment (js "neutral") r); simpl in *; lia.
Qed.

(** C10.  In what a run returns, a record without [error] carries the
    sentiment of its content and a record with [error] carries none; so the
    three sentiment counts add up to the number of records without [error],
    which is the total less the degraded ones. *)
Theorem sentiment_counts_successes (cfg : RBC.Config) (world : RBC.World)
    (schedule : RBC.Schedule) (now : jsstring) (s : RBC.Shared)
    (articles : list object) (s' : RBC.Shared) :
  RBC.parseRBCWebsite cfg world schedule now s = Some (Return articles, s') ->
  Forall (fun r => if decide (degraded_record r)
                   then map_get (js "sentiment") r = None
                   else exists text,
                          map_get (js "content") r = Some (Str text)
                          /\ map_get (js "sentiment") r
                             = Some (Obj (RBC.getTextSentiment text)))
         articles
  /\ (RBC.stats_positive (RBC.sentimentStats articles)
      + RBC.stats_negative (RBC.sentimentStats articles)
      + RBC.stats_neutral (RBC.sentimentStats articles)
      = length (filter (fun r => ~ degraded_record r) articles))%nat
  /\ (RBC.stats_positive (RBC.sentimentStats articles)
      + RBC.stats_negative (RBC.sentimentStats articles)
      + RBC.stats_neutral (RBC.sentimentStats articles)
      + length (filter degraded_record articles)
      = RBC.totalArticles articles)%nat.
Proof.
  intros Hrun.
  assert (Hshape :
    Forall (fun r => if decide (degraded_record r)
                     then map_get (js "sentiment") r = None
                     else exists text,
                            map_get (js "content") r = Some (Str text)
                            /\ map_get (js "sentiment") r
                               = Some (Obj (RBC.getTextSentiment text)))
           articles).
  { unfold RBC.parseRBCWebsite in Hrun.
    destruct (RBC.tryWithRetry _ _ _ _) as [[[]|e] r1].
    - destruct (RBC.detailStage _ _ _ _ _) as [[[records|e] s1]|] eqn:Hstage;
        [| |done].
      + injection Hrun as -> ->.
        apply detailStage_records in Hstage as [_ Htasks].
        apply Forall_lookup. intros i r Hr.
        destruct (Htasks i r Hr) as (stub & t & s0 & s1 & _ & _ & Hsettle).
        apply settle_record in Hsettle.
        destruct (outcome _ _) as [d|[|m]]; [|done|]; subst r.
        * rewrite decide_False by (intros [? [=]]). by eexists.
        * rewrite decide_True by (by eexists). done.
      + destruct (RBC.logError _ _ _ _ _) as [[[]|e'] s2]; [|done].
        injection Hrun as <- <-. constructor.
    - destruct (RBC.logError _ _ _ _ _) as [[[]|e'] s2]; [|done].
      injection Hrun as <- <-. constructor. }
  split; [done|].
  assert (Hsum :
    (RBC.stats_positive (RBC.sentimentStats articles)
     + RBC.stats_negative (RBC.sentimentStats articles)
     + RBC.stats_neutral (RBC.sentimentStats articles)
     = length (filter (fun r => ~ degraded_record r) articles))%nat).
  { apply sentiment_counts. eapply Forall_impl; [exact Hshape|].
    intros r Hr. simpl in Hr. destruct (decide (degraded_record r)); [done|].
    destruct Hr as (text & _ & Hr). eauto. }
  split; [done|]. rewrite Hsum. unfold RBC.totalArticles.
  clear. induction articles as [|r rs IH]; [done|].
  rewrite !filter_cons. destruct (decide (degraded_record r)).
  - rewrite decide_False by tauto. simpl. lia.
  - rewrite decide_True by done. simpl. lia.
Qed.

Lemma tally_cons (lexicon : list jsstring) (w : jsstring) (ws : list jsstring) :
  Spec.tally lexicon (w :: ws)
  = ((if existsb (includes w) lexicon then 1 else 0) + Spec.tally lexicon ws)%Z.
Proof.
  unfold Spec.tally, Spec.counts_for. cbn [List.filter].
  destruct (existsb (includes w) lexicon); cbn [length]; lia.
Qed.

Lemma foldl_score (words : list jsstring) (p n : Z) :
  foldl RBC.score (p, n) words
  = ((p + Spec.tally RBC.positiveWords words)%Z,
     (n + Spec.tally RBC.negativeWords words)%Z).
Proof.
  revert p n. induction words as [|w ws IH]; intros p n.
  - unfold Spec.tally. cbn [foldl List.filter length]. f_equal; lia.
  - change (foldl RBC.score (p, n) (w :: ws))
      with (foldl RBC.score (RBC.score (p, n) w) ws).
    unfold RBC.score. cbn [fst snd]. rewrite IH, !tally_cons.
    destruct (existsb (includes w) RBC.positiveWords),
             (existsb (includes w) RBC.negativeWords); f_equal; lia.
Qed.

(** The pieces of [split(/\s+/)] hold no white space, and together they
    hold every other unit of the text, in order. *)
Lemma split_from_pieces (in_run : bool) (s : jsstring) :
  split_from in_run s <> []
  /\ Forall (Forall (fun c => isWhiteSpace c = false)) (split_from in_run s)
  /\ mjoin (split_from in_run s)
     = List.filter (fun c => negb (isWhiteSpace c)) s.
Proof.
  revert in_run. induction s as [|c s IH]; intros in_run; simpl.
  - repeat split; [done|]. by repeat constructor.
  - destruct (isWhiteSpace c) eqn:Hc; simpl.
    + destruct in_run; [apply IH|].
      destruct (IH true) as (_ & Hall & Hjoin). repeat split; [done| |done].
      by constructor.
    + destruct (IH false) as (Hne & Hall & Hjoin).
      destruct (split_from false s) as [|w ws]; [done|].
      apply Forall_cons in Hall as [Hw Hws]. simpl in *.
      repeat split; [done| |by rewrite Hjoin].
      constructor; [by constructor|done].
Qed.

(** C6.  The scorer computes what section 4.5 describes: the tokens are the
    white-space pieces of the case-folded content; [positive] and [negative]
    count the tokens that contain an entry of the respective lexicon;
    [neutral] is the token count less both; the label follows the larger
    score.  The scenario text scores (2, 1, 0, positive), and a token found
    in both lexicons drives [neutral] below zero. *)
Theorem sentiment_scoring :
  (forall text, RBC.getTextSentiment text = Spec.lexical_sentiment text)
  /\ (forall text,
        let tokens := split_whitespace (toLowerCase text) in
        let s := RBC.getTextSentiment text in
        positive s = Z.of_nat (length (List.filter
                       (fun t => existsb (includes t) RBC.positiveWords) tokens))
        /\ negative s = Z.of_nat (length (List.filter
                       (fun t => existsb (includes t) RBC.negativeWords) tokens))
        /\ neutral s = (Z.of_nat (length tokens) - positive s - negative s)%Z
        /\ sentiment s = (if (negative s <? positive s)%Z then js "positive"
                          else if (positive s <? negative s)%Z then js "negative"
                          else js "neutral"))
  /\ RBC.getTextSentiment (js "рост рост кризис")
     = {| positive := 2; negative := 1; neutral := 0; sentiment := js "positive" |}
  /\ RBC.getTextSentiment (js "антикризисный рост")
     = {| positive := 1; negative := 1; neutral := 0; sentiment := js "neutral" |}
  /\ RBC.getTextSentiment (js "рискрост")
     = {| positive := 1; negative := 1; neutral := -1; sentiment := js "neutral" |}.
Proof.
  assert (Hspec : forall text,
            RBC.getTextSentiment text = Spec.lexical_sentiment text).
  { intros text. unfold RBC.getTextSentiment, Spec.lexical_sentiment.
    rewrite foldl_score. simpl. done. }
  split; [done|]. split; [|repeat split; vm_compute; reflexivity].
  intros text tokens s. unfold s. rewrite Hspec. done.
Qed.

Lemma positive_length {A} (l : list A) :
  (0 <? Z.of_nat (length l))%Z = false <-> l = [].
Proof.
  rewrite Z.ltb_ge. destruct l as [|x l]; [done|].
  split; [|done]. rewrite length_cons. lia.
Qed.

(** The selector loop stops at the first selector with a match and has
    queried nothing after it; with no match anywhere it has queried them
    all and holds nothing. *)
Lemma resolve_first_match (document : Meduza.Document) (cascade : list jsstring) :
  (exists before selector after,
     cascade = before ++ selector :: after
     /\ Forall (fun x => Meduza.querySelectorAll document x = []) before
     /\ Meduza.querySelectorAll document selector <> []
     /\ Meduza.resolve document cascade
        = (before ++ [selector], Meduza.querySelectorAll document selector))
  \/ (Forall (fun x => Meduza.querySelectorAll document x = []) cascade
      /\ Meduza.resolve document cascade = (cascade, [])).
Proof.
  induction cascade as [|x cascade IH]; [by right|].
  simpl. destruct (0 <? _)%Z eqn:Hx.
  - left. exists [], x, cascade. repeat split; [by constructor|].
    intros Hnil. rewrite Hnil in Hx. done.
  - apply positive_length in Hx.
    destruct IH as [(before & selector & after & -> & Hnone & Hsome & ->)
                   |(Hnone & ->)].
    + left. exists (x :: before), selector, after. repeat split; [|done].
      by constructor.
    + right. split; [by constructor|done].
Qed.

Lemma resolveContent_first_match (document : Meduza.DetailDom)
    (cascade : list jsstring) :
  (exists before selector after element,
     cascade = before ++ selector :: after
     /\ Forall (fun x => Meduza.querySelector document x = None) before
     /\ Meduza.querySelector document selector = Some element
     /\ Meduza.resolveContent document cascade
        = (before ++ [selector], Some element))
  \/ (Forall (fun x => Meduza.querySelector document x = None) cascade
      /\ Meduza.resolveContent document cascade = (cascade, None)).
Proof.
  induction cascade as [|x cascade IH]; [by right|].
  simpl. destruct (Meduza.querySelector document x) as [element|] eqn:Hx.
  - left. exists [], x, cascade, element. repeat split; [by constructor|done].
  - destruct IH as [(before & selector & after & element & -> & Hnone & Hsome & ->)
                   |(Hnone & ->)].
    + left. exists (x :: before), selector, after, element.
      repeat split; [|done]. by constructor.
    + right. split; [by constructor|done].
Qed.

Lemma fallback_first_links {folding : Meduza.CaseFolding} (F : list jsstring)
    (containers : list (list Meduza.Link)) :
  Meduza.fallback F containers
  = List.filter (Meduza.categoryMatches F)
                (map Meduza.stub_of_link (Spec.first_links containers)).
Proof.
  unfold Spec.first_links.
  induction containers as [|links containers IH]; [done|].
  rewrite filter_cons. destruct links as [|l links].
  - rewrite decide_False by (intros Hne; by apply Hne). exact IH.
  - rewrite decide_True by done. done.
Qed.

Lemma first_links_none (containers : list (list Meduza.Link)) :
  Forall (fun links => links = []) containers -> Spec.first_links containers = [].
Proof.
  unfold Spec.first_links. induction 1 as [|links containers Hnil _ IH]; [done|].
  subst links. rewrite filter_cons_False; [exact IH|]. intros Hne. by apply Hne.
Qed.

(** C7.  Listing cascade and content cascade both settle on the first
    selector, in declared order, that matches, with no query issued beyond
    it.  When no listing selector matches, the stubs are those of the news
    links of the first container that has any; when there are none either,
    the extractor returns the empty array, and so does the whole run: it
    does not throw. *)
Theorem cascade_first_match {folding : Meduza.CaseFolding} :
  (forall (document : Meduza.Document) (cascade : list jsstring),
     (exists before selector after,
        cascade = before ++ selector :: after
        /\ Forall (fun x => Meduza.querySelectorAll document x = []) before
        /\ Meduza.querySelectorAll document selector <> []
        /\ Meduza.resolve document cascade
           = (before ++ [selector], Meduza.querySelectorAll document selector))
     \/ (Forall (fun x => Meduza.querySelectorAll document x = []) cascade
         /\ Meduza.resolve document cascade = (cascade, [])))
  /\ (forall (document : Meduza.DetailDom) (cascade : list jsstring),
        (exists before selector after element,
           cascade = before ++ selector :: after
           /\ Forall (fun x => Meduza.querySelector document x = None) before
           /\ Meduza.querySelector document selector = Some element
           /\ Meduza.resolveContent document cascade
              = (before ++ [selector], Some element))
        \/ (Forall (fun x => Meduza.querySelector document x = None) cascade
            /\ Meduza.resolveContent document cascade = (cascade, None)))
  /\ (forall (document : Meduza.Document) (F : list jsstring),
        Forall (fun x => Meduza.querySelectorAll document x = []) Meduza.selectors ->
        Meduza.extractListing document F
        = Return (List.filter (Meduza.categoryMatches F)
                    (map Meduza.stub_of_link
                         (Spec.first_links (Meduza.possibleContainers document))))
        /\ (Forall (fun links => links = []) (Meduza.possibleContainers document) ->
            Meduza.extractListing document F = Return []
            /\ forall visit maxArticles,
                 Meduza.parseMeduzaWebsite
                   {| Meduza.listing := Return document; Meduza.visit := visit |}
                   F maxArticles
                 = Return [])).
Proof.
  split; [exact resolve_first_match|]. split; [exact resolveContent_first_match|].
  intros document F Hnone.
  assert (Hlisting :
    Meduza.extractListing document F
    = Return (List.filter (Meduza.categoryMatches F)
                (map Meduza.stub_of_link
                     (Spec.first_links (Meduza.possibleContainers document))))).
  { unfold Meduza.extractListing.
    destruct (resolve_first_match document Meduza.selectors)
      as [(before & selector & after & Hsplit & _ & Hsome & _)|[_ ->]].
    - exfalso. apply Hsome. rewrite Forall_forall in Hnone. apply Hnone.
      rewrite Hsplit. apply elem_of_app. right. left.
    - simpl. by rewrite fallback_first_links. }
  split; [done|]. intros Hempty.
  rewrite first_links_none in Hlisting by done. split; [done|].
  intros visit maxArticles. unfold Meduza.parseMeduzaWebsite. simpl.
  rewrite Hlisting. cbn [map List.filter]. unfold slice_to. by rewrite take_nil.
Qed.

Lemma filter_bool {A} (f : A -> bool) (P : A -> Prop) `{!forall x, Decision (P x)}
    (l : list A) :
  (forall x, f x = true <-> P x) -> List.filter f l = filter P l.
Proof.
  intros Hf. induction l as [|x l IH]; [done|].
  simpl. rewrite filter_cons. destruct (f x) eqn:Hx.
  - rewrite decide_True by (by apply Hf). by f_equal.
  - rewrite decide_False; [done|]. intros HP. apply Hf in HP. congruence.
Qed.

Lemma categoryMatches_passes {folding : Meduza.CaseFolding} (F : list jsstring)
    (stub : Meduza.Stub) :
  Meduza.categoryMatches F stub = true <-> Spec.passes F stub.
Proof.
  unfold Meduza.categoryMatches, Spec.passes, Spec.contains_ci.
  rewrite orb_true_iff, existsb_exists, Exists_exists.
  split.
  - intros [Hlen|(term & Hin & Hterm)].
    + left. destruct F; [done|]. simpl in Hlen. lia.
    + right. exists term. by rewrite list_elem_of_In.
  - intros [->|(term & Hin & Hterm)]; [by left|].
    right. exists term. by rewrite <- list_elem_of_In.
Qed.

Lemma filter_all {A} (P : A -> Prop) `{!forall x, Decision (P x)} (l : list A) :
  (forall x, P x) -> filter P l = l.
Proof.
  intros HP. induction l as [|x l IH]; [done|].
  rewrite filter_cons_True by done. by f_equal.
Qed.

Lemma extractListing_offered {folding : Meduza.CaseFolding}
    (document : Meduza.Document) (G : list jsstring) :
  Meduza.extractListing document G
  = Return (filter (Spec.passes G) (Spec.stubs document)).
Proof.
  unfold Meduza.extractListing, Spec.stubs.
  destruct (Meduza.resolve document Meduza.selectors).2 as [|b found] eqn:Hfound.
  - simpl. rewrite fallback_first_links. f_equal.
    apply filter_bool, categoryMatches_passes.
  - cbn [length Z.of_nat Z.eqb]. f_equal.
    rewrite list_filter_filter. apply filter_bool.
    intros stub. unfold Meduza.kept.
    rewrite andb_true_iff, categoryMatches_passes, negb_true_iff,
      bool_decide_eq_false. done.
Qed.

(** The filter looks at folded forms only: labels with the same folded
    form, and filters whose terms have the same folded forms, are treated
    alike. *)
Lemma categoryMatches_folded {folding : Meduza.CaseFolding}
    (F G : list jsstring) (a b : Meduza.Stub) :
  Meduza.toLowerCase (Meduza.category a) = Meduza.toLowerCase (Meduza.category b) ->
  Meduza.toLowerCase <$> F = Meduza.toLowerCase <$> G ->
  Meduza.categoryMatches F a = Meduza.categoryMatches G b.
Proof.
  intros Hlabel Hterms. unfold Meduza.categoryMatches. rewrite Hlabel.
  f_equal.
  - apply (f_equal length) in Hterms. rewrite !length_fmap in Hterms.
    by rewrite Hterms.
  - set (inside := includes (Meduza.toLowerCase (Meduza.category b))).
    transitivity (existsb inside (Meduza.toLowerCase <$> F)).
    + clear. induction F as [|term F IH]; [done|]. simpl. by f_equal.
    + rewrite Hterms. clear. induction G as [|term G IH]; [done|].
      simpl. by f_equal.
Qed.

(** C9.  The listing returns exactly the offered stubs that pass the
    filter, in their order: a stub passes when the filter is empty or its
    category, lower-cased, contains some lower-cased term of the filter.
    With the empty filter every offered stub is returned.  This holds for
    whatever case folding the engine performs, and the comparison sees
    folded forms only: two labels with the same folded form fare alike
    under two filters whose terms have the same folded forms. *)
Theorem category_filter_subset {folding : Meduza.CaseFolding}
    (document : Meduza.Document) (F : list jsstring) :
  Meduza.extractListing document F
  = Return (filter (Spec.passes F) (Spec.stubs document))
  /\ Meduza.extractListing document [] = Return (Spec.stubs document)
  /\ (forall stub,
        stub ∈ filter (Spec.passes F) (Spec.stubs document)
        <-> stub ∈ Spec.stubs document
            /\ (F = []
                \/ exists term, term ∈ F
                     /\ includes (Meduza.toLowerCase (Meduza.category stub))
                                 (Meduza.toLowerCase term) = true))
  /\ (forall (G : list jsstring) (a b : Meduza.Stub),
        Meduza.toLowerCase (Meduza.category a)
        = Meduza.toLowerCase (Meduza.category b) ->
        Meduza.toLowerCase <$> F = Meduza.toLowerCase <$> G ->
        Meduza.categoryMatches F a = Meduza.categoryMatches G b).
Proof.
  pose proof (extractListing_offered document) as Hgen.
  split; [apply Hgen|]. split; [|split].
  - rewrite Hgen. f_equal. apply filter_all. intros stub. by left.
  - intros stub. rewrite list_elem_of_filter. unfold Spec.passes, Spec.contains_ci.
    rewrite Exists_exists. tauto.
  - intros G a b. apply categoryMatches_folded.
Qed.

(** At a listing of three labelled blocks, a term in capitals selects the
    block whose label has the same letters in another case. *)
Lemma category_filter_subset_witness :
  Meduza.extractListing (folding := table_folding) labelled_page [js "ЭКОНОМ"]
  = Return [Meduza.stub_of_block (labelled_block "Two" "/news/2" "Экономика")]
  /\ Meduza.categoryMatches (folding := table_folding) [js "ЭКОНОМ"]
       (Meduza.stub_of_block (labelled_block "Two" "/news/2" "Экономика"))
     = Meduza.categoryMatches (folding := table_folding) [js "эконом"]
         (Meduza.stub_of_block (labelled_block "Four" "/news/4" "ЭКОНОМИКА")).
Proof.
  destruct (category_filter_subset (folding := table_folding)
              labelled_page [js "ЭКОНОМ"]) as (Hlisting & _ & _ & Hfolded).
  split.
  - rewrite Hlisting. vm_compute. reflexivity.
  - apply Hfolded; vm_compute; reflexivity.
Defined.

(** The Meduza loop keeps the stub of a failed visit as it is, with no
    [error] and no [content], and goes on. *)
Lemma meduza_failed_visit_keeps_stub (world : Meduza.World) (i : nat)
    (stub : Meduza.Stub) (e : thrown) :
  Meduza.visit world i = Throw e ->
  Meduza.detail world i stub = Meduza.object_of stub
  /\ map_get (js "error") (Meduza.object_of stub) = None
  /\ map_get (js "content") (Meduza.object_of stub) = None.
Proof.
  intros Hvisit. unfold Meduza.detail. rewrite Hvisit.
  split; [by destruct (bool_decide _)|].
  unfold Meduza.object_of.
  destruct (Meduza.date stub), (Meduza.summary stub); split; reflexivity.
Qed.

Lemma meduza_run_length {folding : Meduza.CaseFolding} (world : Meduza.World)
    (document : Meduza.Document)
    (categories : list jsstring) (maxArticles : Z) :
  Meduza.listing world = Return document ->
  exists stubs records,
    Meduza.extractListing document categories = Return stubs
    /\ Meduza.parseMeduzaWebsite world categories maxArticles = Return records
    /\ length records = length (slice_to maxArticles stubs).
Proof.
  intros Hlisting. unfold Meduza.parseMeduzaWebsite. rewrite Hlisting.
  rewrite extractListing_offered.
  eexists _, _. split; [done|]. split; [done|]. by rewrite length_imap.
Qed.

(** C3 (as amended).  In the RBC stage: one stub whose navigation throws
    on every attempt, all others loading within the budget and evaluating
    cleanly; then the stage returns one record per stub, the record of the
    failed stub alone bears [error], with empty content and the default
    author, tags and video flag, and the others are the records extracted
    from their pages.  In the Meduza loop, which makes one attempt: the run
    returns one record per stub as well, and the record of a stub whose
    visit throws is the stub as it was, with neither [error] nor
    [content]. *)
Theorem failure_isolated {folding : Meduza.CaseFolding} :
  (forall (cfg : RBC.Config) (stubs : list RBC.Article)
          (pages : nat -> RBC.ArticlePage) (schedule : RBC.Schedule)
          (s : RBC.Shared) (k : nat),
      (1 <= RBC.maxRetries cfg)%nat ->
      (forall i, (i < length stubs)%nat -> i ∈ schedule.*1) ->
      (k < length stubs)%nat ->
      (forall j, (1 <= j <= RBC.maxRetries cfg)%nat -> is_Some (RBC.site (pages k) j)) ->
      (forall i, (i < length stubs)%nat -> i <> k ->
         (exists j, (1 <= j <= RBC.maxRetries cfg)%nat /\ RBC.site (pages i) j = None)
         /\ RBC.crash (pages i) = None) ->
      exists records s',
        RBC.detailStage cfg stubs pages schedule s = Some (Return records, s')
        /\ length records = length stubs
        /\ length (filter (fun r => is_Some (map_get (js "error") r)) records) = 1%nat
        /\ forall i stub record,
             stubs !! i = Some stub -> records !! i = Some record ->
             if decide (i = k)
             then exists now message,
                    record = RBC.degraded stub now message
                    /\ map_get (js "error") record = Some (Str message)
                    /\ map_get (js "content") record = Some (Str [])
                    /\ map_get (js "author") record = Some (Str (js "РБК"))
                    /\ map_get (js "tags") record = Some (Arr [])
                    /\ map_get (js "hasVideo") record = Some (Bool false)
             else exists now,
                    record = RBC.detailed stub
                               (RBC.extractDetails (RBC.document (pages i))) now
                    /\ map_get (js "error") record = None)
  /\ (forall (world : Meduza.World) (document : Meduza.Document)
             (categories : list jsstring) (maxArticles : Z),
        Meduza.listing world = Return document ->
        exists stubs records,
          Meduza.extractListing document categories = Return stubs
          /\ Meduza.parseMeduzaWebsite world categories maxArticles
             = Return records
          /\ length records = length (slice_to maxArticles stubs)
          /\ forall i stub e,
               slice_to maxArticles stubs !! i = Some stub ->
               Meduza.visit world i = Throw e ->
               records !! i = Some (Meduza.object_of stub)
               /\ map_get (js "error") (Meduza.object_of stub) = None
               /\ map_get (js "content") (Meduza.object_of stub) = None).
Proof.
  split.
  { intros cfg stubs pages schedule s k.
    intros Hpos Hall Hk Hfail Hothers.
    destruct (detailStage_returns cfg stubs pages schedule s Hpos Hall)
      as (records & s' & Hstage).
    exists records, s'. split; [done|].
    apply detailStage_records in Hstage as [Hlen Htasks].
    assert (Hshape : forall i stub record,
      stubs !! i = Some stub -> records !! i = Some record ->
      if decide (i = k)
      then exists now message, record = RBC.degraded stub now message
      else exists now, record = RBC.detailed stub
                         (RBC.extractDetails (RBC.document (pages i))) now).
    { intros i stub record Hstub Hrecord.
      destruct (Htasks i record Hrecord) as (a & now & s0 & s1 & Ha & _ & Hsettle).
      rewrite Hstub in Ha. injection Ha as <-.
      apply settle_record in Hsettle.
      destruct (outcome_cases cfg (pages i) Hpos)
        as [(_ & _ & Ho)|[((j & Hj & Hload) & m & Hcrash & Ho)
                         |(Hthrows & m & _ & Ho)]];
        rewrite Ho in Hsettle.
      - destruct (decide (i = k)) as [->|Hne]; [|by exists now].
        destruct (outcome_cases cfg (pages k) Hpos)
          as [((j & Hj & Hload) & _)|[((j & Hj & Hload) & _)|(_ & m & _ & Ho')]].
        + specialize (Hfail j Hj). rewrite Hload in Hfail. by destruct Hfail.
        + specialize (Hfail j Hj). rewrite Hload in Hfail. by destruct Hfail.
        + congruence.
      - destruct (decide (i = k)) as [->|Hne]; [by exists now, m|].
        destruct (Hothers i) as [_ Hclean]; [by eapply lookup_lt_Some|done|].
        congruence.
      - destruct (decide (i = k)) as [->|Hne]; [by exists now, m|].
        destruct (Hothers i) as [(j & Hj & Hload) _]; [by eapply lookup_lt_Some|done|].
        specialize (Hthrows j Hj). rewrite Hload in Hthrows. by destruct Hthrows. }
    split; [done|]. split.
    - apply (length_filter_one _ _ k); [lia|].
      intros i record Hrecord.
      destruct (lookup_lt_is_Some_2 stubs i) as [stub Hstub];
        [apply lookup_lt_Some in Hrecord; lia|].
      specialize (Hshape i stub record Hstub Hrecord).
      destruct (decide (i = k)) as [->|Hne].
      + destruct Hshape as (now & m & ->). split; [done|]. intros _. by eexists.
      + destruct Hshape as (now & ->). split; [|done]. intros [? [=]].
    - intros i stub record Hstub Hrecord.
      specialize (Hshape i stub record Hstub Hrecord).
      destruct (decide (i = k)) as [->|Hne].
      + destruct Hshape as (now & m & ->). exists now, m. repeat split.
      + destruct Hshape as (now & ->). exists now. repeat split. }
  intros world document categories maxArticles Hlisting.
  unfold Meduza.parseMeduzaWebsite. rewrite Hlisting.
  rewrite extractListing_offered. eexists _, _.
  split; [done|]. split; [done|]. split; [by rewrite length_imap|].
  intros i stub e Hstub Hvisit.
  rewrite list_lookup_imap, Hstub. simpl.
  destruct (meduza_failed_visit_keeps_stub world i stub e Hvisit) as (-> & ? & ?).
  done.
Qed.

(** C3, counterexample.  Two stubs on the Meduza front page, the first of
    which cannot be visited: the run returns two records and none of them
    bears [error]; the first has no [content] either. *)
Lemma meduza_failure_bears_no_error :
  exists records,
    Meduza.parseMeduzaWebsite (folding := table_folding) meduza_site [] 20%Z = Return records
    /\ length records = 2%nat
    /\ (exists e, Meduza.visit meduza_site 0 = Throw e)
    /\ (exists page, Meduza.visit meduza_site 1 = Return page)
    /\ length (filter (fun r => is_Some (map_get (js "error") r)) records) <> 1%nat
    /\ exists first, records !! 0%nat = Some first
                     /\ map_get (js "content") first = None.
Proof.
  eexists. split; [vm_compute; reflexivity|].
  split; [reflexivity|]. split; [by eexists|]. split; [by eexists|].
  split; [vm_compute; discriminate|].
  eexists. split; reflexivity.
Qed.

Lemma sample_schedule_complete (i : nat) :
  (i < 3)%nat -> i ∈ sample_schedule.*1.
Proof.
  intros Hi. destruct i as [|[|[|i]]]; [| | |lia]; simpl.
  - right. left.
  - right. right. left.
  - left.
Defined.

Lemma failure_isolated_witness :
  (exists records s',
     RBC.detailStage RBC.config sample_stubs sample_pages sample_schedule idle
     = Some (Return records, s')
     /\ length records = 3%nat
     /\ length (filter (fun r => is_Some (map_get (js "error") r)) records) = 1%nat)
  /\ (exists records,
        Meduza.parseMeduzaWebsite (folding := table_folding) meduza_site [] 20%Z
        = Return records
        /\ records !! 0%nat
           = Some (Meduza.object_of (Meduza.stub_of_block (news_block "One" "/news/1")))).
Proof.
  split.
  - destruct (proj1 (failure_isolated (folding := table_folding)) RBC.config
                sample_stubs sample_pages sample_schedule idle 1)
      as (records & s' & Hrun & Hlen & Hone & _).
    + simpl. lia.
    + exact sample_schedule_complete.
    + simpl. lia.
    + intros j _. by eexists.
    + intros i Hi Hne. simpl in Hi.
      destruct i as [|[|[|i]]]; [| done | |lia].
      * split; [exists 1%nat; split; [simpl; lia|reflexivity]|reflexivity].
      * split; [exists 1%nat; split; [simpl; lia|reflexivity]|reflexivity].
    + exists records, s'. split; [exact Hrun|]. split; [exact Hlen|exact Hone].
  - destruct (proj2 (failure_isolated (folding := table_folding))
                meduza_site front_page [] 20%Z eq_refl)
      as (stubs & records & Hstubs & Hrun & _ & Hfailed).
    exists records. split; [exact Hrun|].
    vm_compute in Hstubs. injection Hstubs as <-.
    exact (proj1 (Hfailed 0%nat _ _ eq_refl eq_refl)).
Defined.

Lemma listing_order_preserved_witness :
  exists records s',
    RBC.parseRBCWebsite RBC.config sample_world sample_schedule
      (js "2024-05-01T07:30:10.000Z") idle
    = Some (Return records, s')
    /\ length records = 3%nat.
Proof.
  destruct (listing_order_preserved RBC.config sample_world sample_schedule
              (js "2024-05-01T07:30:10.000Z") idle)
    as (records & s' & Hrun & Hlen & _).
  - simpl. lia.
  - exists 3%nat. split; [simpl; lia|reflexivity].
  - intros i Hi. apply sample_schedule_complete.
    vm_compute in Hi. exact Hi.
  - exists records, s'. split; [exact Hrun|]. rewrite Hlen. vm_compute. reflexivity.
Defined.

Lemma sentiment_counts_successes_witness :
  exists articles s',
    RBC.parseRBCWebsite RBC.config sample_world sample_schedule
      (js "2024-05-01T07:30:10.000Z") idle
    = Some (Return articles, s')
    /\ (RBC.stats_positive (RBC.sentimentStats articles)
        + RBC.stats_negative (RBC.sentimentStats articles)
        + RBC.stats_neutral (RBC.sentimentStats articles)
        + length (filter degraded_record articles)
        = RBC.totalArticles articles)%nat.
Proof.
  assert (Hrun : exists articles s',
    RBC.parseRBCWebsite RBC.config sample_world sample_schedule
      (js "2024-05-01T07:30:10.000Z") idle = Some (Return articles, s')).
  { eexists _, _. vm_compute. reflexivity. }
  destruct Hrun as (articles & s' & Hrun). exists articles, s'.
  split; [exact Hrun|].
  exact (proj2 (proj2 (sentiment_counts_successes _ _ _ _ _ _ _ Hrun))).
Defined.

Example sample_run_statistics :
  exists articles s',
    RBC.parseRBCWebsite RBC.config sample_world sample_schedule
      (js "2024-05-01T07:30:10.000Z") idle = Some (Return articles, s')
    /\ RBC.totalArticles articles = 3%nat
    /\ RBC.sentimentStats articles
       = {| RBC.stats_positive := 2; RBC.stats_negative := 0; RBC.stats_neutral := 0 |}
    /\ RBC.progress s' = 3%nat
    /\ map RBC.logged_url (RBC.errorLog s') = [js "https://www.rbc.ru/economics/7"].
Proof. eexists _, _. vm_compute. repeat split; reflexivity. Qed.

Lemma cascade_first_match_witness :
  Meduza.extractListing (folding := table_folding) empty_document [js "Политика"]
  = Return []
  /\ Meduza.parseMeduzaWebsite (folding := table_folding)
       {| Meduza.listing := Return empty_document;
          Meduza.visit := fun _ => Throw Undefined |} [js "Политика"] 20
     = Return [].
Proof.
  destruct (proj2 (proj2 (cascade_first_match (folding := table_folding)))
              empty_document [js "Политика"])
    as [_ Hnothing].
  - repeat constructor.
  - destruct Hnothing as [Hlisting Hrun]; [constructor|].
    split; [exact Hlisting|apply Hrun].
Defined.

Example cascade_second_strategy :
  Meduza.resolve three_anchors [js ".Card"; js "a[href]"; js "article"]
  = ([js ".Card"; js "a[href]"],
     [anchor_block "One" "/news/1"; anchor_block "Two" "/news/2";
      anchor_block "Three" "/feature/3"])
  /\ map Meduza.url
       (map Meduza.stub_of_block
            (Meduza.resolve three_anchors [js ".Card"; js "a[href]"]).2)
     = [js "https://meduza.io/news/1"; js "https://meduza.io/news/2";
        js "https://meduza.io/feature/3"].
Proof. split; vm_compute; reflexivity. Qed.

(** ** Further properties of the two programs *)

Lemma read_field (raw current : jsstring) (finished : list jsstring) (rest : jsstring) :
  Csv.read Csv.InField current finished (double_quotes raw ++ 34%N :: rest)
  = Csv.read Csv.QuoteSeen (rev raw ++ current) finished rest.
Proof.
  revert current. induction raw as [|c raw IH]; intros current; [done|].
  simpl. destruct (c =? 34)%N eqn:Hc.
  - apply N.eqb_eq in Hc. subst c. simpl. rewrite IH.
    by rewrite <- app_assoc.
  - simpl. rewrite Hc, IH. by rewrite <- app_assoc.
Qed.

Lemma read_quoted_fields (quote : jsstring -> jsstring) (raws : list jsstring)
    (finished : list jsstring) :
  (forall raw, quote raw = [34%N] ++ double_quotes raw ++ [34%N]) ->
  raws <> [] ->
  Csv.read Csv.FieldStart [] finished (join (js ",") (map quote raws))
  = Some (rev finished ++ raws).
Proof.
  intros Hquote. revert finished.
  induction raws as [|raw raws IH]; intros finished Hne; [done|].
  destruct raws as [|next raws].
  - simpl. rewrite Hquote. simpl. rewrite read_field. simpl.
    by rewrite app_nil_r, rev_involutive.
  - change (join (js ",") (map quote (raw :: next :: raws)))
      with (quote raw ++ js "," ++ join (js ",") (map quote (next :: raws))).
    rewrite Hquote. simpl. rewrite <- app_assoc. simpl.
    rewrite read_field. change (js ",") with [44%N]. simpl.
    rewrite app_nil_r, rev_involutive, IH by done. simpl.
    by rewrite <- app_assoc.
Qed.

Lemma rbc_cell_text (item : object) (header : jsstring) :
  RBC.cell item header = RBC.quoted (Csv.rbc_text item header).
Proof.
  unfold RBC.cell, Csv.rbc_text.
  destruct (map_get header item) as [[t|b|a|o]|]; done.
Qed.

Lemma meduza_cell_text (v : value) :
  Meduza.cell v = Meduza.quoted (Csv.meduza_text v).
Proof. destruct v as [[|c t]|[|]|a|o]; done. Qed.

(** X7.  Every row the RBC writer emits reads back, by the usual rules for
    quoted fields, as one field per header: the text of the record's value
    under that header, or the empty text when the record lacks the key. *)
Theorem rbc_row_reads_back (data : list object) (item : object) :
  RBC.allKeys data <> [] ->
  Csv.parse_row (join (js ",") (map (RBC.cell item) (RBC.allKeys data)))
  = Some (map (Csv.rbc_text item) (RBC.allKeys data))
  /\ length (map (Csv.rbc_text item) (RBC.allKeys data))
     = length (RBC.allKeys data)
  /\ RBC.csvContent data
     = join [10%N] (join (js ",") (RBC.allKeys data)
                    :: map (fun item => join (js ",")
                              (map (RBC.cell item) (RBC.allKeys data))) data).
Proof.
  intros Hkeys. split; [|split; [by rewrite length_map|done]].
  unfold Csv.parse_row.
  replace (map (RBC.cell item) (RBC.allKeys data))
    with (map RBC.quoted (map (Csv.rbc_text item) (RBC.allKeys data))).
  - rewrite (read_quoted_fields RBC.quoted); [done|done|].
    by destruct (RBC.allKeys data).
  - rewrite map_map. apply map_ext. intros h. by rewrite rbc_cell_text.
Qed.

(** X8.  A row of the Meduza writer reads back as the record's own values, in
    the record's own key order: as many fields as the record has keys,
    whatever the header (the keys of the first record) lists.  [false] and
    the empty string both come out as the empty field. *)
Theorem meduza_row_reads_back (first : object) (others : list object)
    (item : object) :
  item <> [] ->
  Csv.parse_row (join (js ",") (map Meduza.cell (map_values item)))
  = Some (map Csv.meduza_text (map_values item))
  /\ length (map Csv.meduza_text (map_values item)) = length (map_keys item)
  /\ Meduza.csvContent (first :: others)
     = join [10%N] (join (js ",") (map_keys first)
                    :: map (fun item => join (js ",")
                              (map Meduza.cell (map_values item)))
                           (first :: others))
  /\ Meduza.cell (Bool false) = Meduza.cell (Str []).
Proof.
  intros Hitem. split; [|split; [|done]].
  - unfold Csv.parse_row.
    replace (map Meduza.cell (map_values item))
      with (map Meduza.quoted (map Csv.meduza_text (map_values item))).
    + rewrite (read_quoted_fields Meduza.quoted); [done|done|].
      by destruct item.
    + rewrite map_map. apply map_ext. intros v. by rewrite meduza_cell_text.
  - unfold map_values, map_keys. by rewrite length_map, !length_fmap.
Qed.

Lemma filter_insert_length {A} (P : A -> Prop) `{!forall x, Decision (P x)}
    (l : list A) (i : nat) (x y : A) :
  l !! i = Some x -> ~ P x ->
  length (filter P (<[i:=y]> l))
  = (length (filter P l) + (if decide (P y) then 1 else 0))%nat.
Proof.
  revert i. induction l as [|z l IH]; intros i Hi Hx; [done|].
  destruct i as [|i]; simpl in *.
  - injection Hi as ->. rewrite !filter_cons. rewrite (decide_False (P:=P x)) by done.
    destruct (decide (P y)); simpl; lia.
  - rewrite !filter_cons. destruct (decide (P z)); simpl; rewrite (IH i Hi Hx); lia.
Qed.

Lemma settle_effects now article (o : completion RBC.Details) s record s1 :
  RBC.settle now article o s = (Return record, s1) ->
  RBC.progress s1 = S (RBC.progress s)
  /\ length (RBC.errorLog s1)
     = (length (RBC.errorLog s) + (if decide (degraded_record record) then 1 else 0))%nat.
Proof.
  destruct o as [d|[|m]]; simpl; intros [= <- <-].
  - split; [done|].
    destruct (decide (degraded_record (RBC.detailed article d now))) as [[x Hx]|Hd];
      [done|simpl; lia].
  - split; [done|].
    destruct (decide (degraded_record (RBC.degraded article now m))) as [Hd|Hd].
    + simpl. rewrite length_app. simpl. lia.
    + exfalso. apply Hd. by eexists.
Qed.

Lemma join_all_effects cfg articles pages schedule :
  forall slots s out s',
    RBC.join_all cfg articles pages schedule slots s = (Return out, s') ->
    (RBC.progress s' + length (filter is_Some slots)
     = RBC.progress s + length (filter is_Some out))%nat
    /\ (length (RBC.errorLog s') + length (filter bears_error slots)
        = length (RBC.errorLog s) + length (filter bears_error out))%nat.
Proof.
  induction schedule as [|[index now] later IH]; intros slots s out s'; simpl.
  { intros [= <- <-]. done. }
  destruct (articles !! index) as [article|] eqn:Harticle; [|apply IH].
  destruct (slots !! index) as [[filled|]|] eqn:Hslot; [apply IH| |apply IH].
  destruct (RBC.settle _ _ _ _) as [[record|e] s1] eqn:Hsettle; [|done].
  intros Hrun. apply IH in Hrun as [Hprogress Hlog].
  apply settle_effects in Hsettle as [Hp Hl].
  rewrite (filter_insert_length is_Some _ _ None) in Hprogress;
    [|done|by intros []].
  rewrite (filter_insert_length bears_error _ _ None) in Hlog; [|done|by intros []].
  rewrite decide_True in Hprogress by (by eexists).
  destruct (decide (bears_error (Some record))) as [Hd|Hd];
    destruct (decide (degraded_record record)) as [Hd'|Hd']; simpl in *;
    try tauto; lia.
Qed.

Lemma mapM_id_fmap {A} (slots : list (option A)) (records : list A) :
  mapM id slots = Some records -> slots = Some <$> records.
Proof.
  intros Hm. apply mapM_Some in Hm.
  induction Hm as [|x y l k Hxy _ IH]; [done|]. simpl in Hxy. by subst.
Qed.

(** X3.  The progress bar is stepped once for every stub, loaded or not, and the
    error log gains one entry for every degraded record and none
    otherwise. *)
Theorem progress_and_log (cfg : RBC.Config) (stubs : list RBC.Article)
    (pages : nat -> RBC.ArticlePage) (schedule : RBC.Schedule)
    (s s' : RBC.Shared) (records : list object) :
  RBC.detailStage cfg stubs pages schedule s = Some (Return records, s') ->
  RBC.progress s' = (RBC.progress s + length stubs)%nat
  /\ length (RBC.errorLog s')
     = (length (RBC.errorLog s) + length (filter degraded_record records))%nat.
Proof.
  unfold RBC.detailStage.
  destruct (RBC.join_all _ _ _ _ _ _) as [[out|e] s1] eqn:Hrun; [|done].
  destruct (mapM id out) as [rs|] eqn:Hm; [|done]. intros [= -> ->].
  pose proof (join_all_slots _ _ _ _ _ _ _ _ Hrun) as [Hlen _].
  apply join_all_effects in Hrun as [Hprogress Hlog].
  apply mapM_id_fmap in Hm. subst out.
  rewrite length_fmap, length_replicate in Hlen.
  assert (Hnone : forall (P : option object -> Prop) `{!forall x, Decision (P x)} n,
            ~ P None -> filter P (replicate n None) = []).
  { intros P ? n HP. induction n as [|n IH]; [done|].
    simpl. by rewrite filter_cons_False. }
  rewrite !Hnone in Hprogress, Hlog by (by intros []).
  assert (Hsome : length (filter is_Some (Some <$> records)) = length records).
  { clear. induction records as [|r rs IH]; [done|].
    rewrite fmap_cons, filter_cons_True by (by eexists). simpl. by rewrite IH. }
  assert (Herr : length (filter bears_error (Some <$> records))
                 = length (filter degraded_record records)).
  { clear. induction records as [|r rs IH]; [done|].
    rewrite fmap_cons, !filter_cons. simpl.
    destruct (decide (degraded_record r)); simpl; by rewrite IH. }
  rewrite Hsome in Hprogress. rewrite Herr in Hlog. simpl in *. lia.
Qed.

(** X4.  An article whose navigation throws on every attempt costs the whole
    budget: [maxRetries] navigations and as many waits, the last one after
    the last failure.  Its record and its log entry carry the message of
    the last attempt. *)
Theorem unreachable_article_costs (cfg : RBC.Config) (page : RBC.ArticlePage)
    (article : RBC.Article) (now : jsstring) (s : RBC.Shared) :
  (1 <= RBC.maxRetries cfg)%nat ->
  (forall j, (1 <= j <= RBC.maxRetries cfg)%nat -> is_Some (RBC.site page j)) ->
  exists last r',
    RBC.site page (RBC.maxRetries cfg) = Some last
    /\ RBC.fetch cfg page RBC.fresh = (Throw (Error last), r')
    /\ RBC.navigations r' = RBC.maxRetries cfg
    /\ RBC.delays r' = replicate (RBC.maxRetries cfg) (RBC.retryDelay cfg)
    /\ RBC.settle now article (RBC.fetch cfg page RBC.fresh).1 s
       = (Return (RBC.degraded article now last),
          {| RBC.progress := S (RBC.progress s);
             RBC.errorLog := RBC.errorLog s
               ++ [{| RBC.logged_at := now;
                      RBC.logged_message := js "Ошибка при парсинге статьи";
                      RBC.logged_url := RBC.article_url article;
                      RBC.logged_cause := last |}] |}).
Proof.
  intros Hpos Hfail. unfold RBC.fetch, RBC.tryWithRetry.
  destruct (retry_loop_fails (RBC.site page) (RBC.maxRetries cfg) (RBC.retryDelay cfg)
              (RBC.maxRetries cfg) 1 Undefined RBC.fresh Hpos Hfail)
    as (last & r' & Hlast & Hrun).
  exists last, r'. rewrite Hrun. split; [exact Hlast|]. split; [done|].
  apply retry_loop_throws in Hrun as (Hnav & _ & Hdel & _). done.
Qed.

(** X5.  A page that loads within the budget but on which the extractor throws
    gives a degraded record as well, with the extractor's message. *)
Lemma crashed_article_degraded (cfg : RBC.Config) (page : RBC.ArticlePage)
    (article : RBC.Article) (now message : jsstring) (s : RBC.Shared) (j : nat) :
  (1 <= j <= RBC.maxRetries cfg)%nat -> RBC.site page j = None ->
  RBC.crash page = Some message ->
  (RBC.settle now article (RBC.fetch cfg page RBC.fresh).1 s).1
  = Return (RBC.degraded article now message).
Proof.
  intros Hj Hload Hcrash. unfold RBC.fetch, RBC.tryWithRetry.
  destruct (retry_loop_loads (RBC.site page) (RBC.maxRetries cfg) (RBC.retryDelay cfg)
              (RBC.maxRetries cfg) 1 Undefined RBC.fresh j Hj Hload) as [r' ->].
  by rewrite Hcrash.
Qed.

(** X2.  When the listing page throws on every attempt, the run returns the
    empty array: it does not throw, it steps no progress, and it logs one
    entry, with the general message, no URL and the message of the last
    attempt. *)
Theorem listing_failure_returns_empty (cfg : RBC.Config) (world : RBC.World)
    (schedule : RBC.Schedule) (now : jsstring) (s : RBC.Shared) :
  (1 <= RBC.maxRetries cfg)%nat ->
  (forall j, (1 <= j <= RBC.maxRetries cfg)%nat ->
     is_Some (RBC.listingSite world j)) ->
  exists last,
    RBC.listingSite world (RBC.maxRetries cfg) = Some last
    /\ RBC.parseRBCWebsite cfg world schedule now s
       = Some (Return [],
               {| RBC.progress := RBC.progress s;
                  RBC.errorLog := RBC.errorLog s
                    ++ [{| RBC.logged_at := now;
                           RBC.logged_message := js "Произошла общая ошибка при парсинге";
                           RBC.logged_url := [];
                           RBC.logged_cause := last |}] |}).
Proof.
  intros Hpos Hfail. unfold RBC.parseRBCWebsite, RBC.tryWithRetry.
  destruct (retry_loop_fails (RBC.listingSite world) (RBC.maxRetries cfg)
              (RBC.retryDelay cfg) (RBC.maxRetries cfg) 1 Undefined RBC.fresh
              Hpos Hfail) as (last & r' & Hlast & ->).
  exists last. split; [exact Hlast|done].
Qed.

(** X1.  With a budget of zero attempts the wrapper calls nothing, waits for
    nothing and throws [undefined]; the run built on it then throws from
    its own [catch], where the message of that [undefined] is read, and
    leaves progress and log as they were. *)
Theorem zero_budget_throws :
  (forall (A : Type) (fn : RBC.Task A) (retryDelay : Z) (r : RBC.Run),
     RBC.tryWithRetry fn 0 retryDelay r = (Throw Undefined, r))
  /\ (forall (cfg : RBC.Config) (world : RBC.World) (schedule : RBC.Schedule)
             (now : jsstring) (s : RBC.Shared),
        RBC.maxRetries cfg = 0%nat ->
        exists message,
          RBC.parseRBCWebsite cfg world schedule now s
          = Some (Throw (Error message), s)).
Proof.
  split; [done|].
  intros cfg world schedule now s Hzero.
  unfold RBC.parseRBCWebsite. rewrite Hzero. simpl. eauto.
Qed.

Lemma dropWhiteSpace_head (s : jsstring) (c : N) (t : jsstring) :
  dropWhiteSpace s = c :: t -> isWhiteSpace c = false.
Proof.
  induction s as [|d s IH]; [done|]. simpl.
  destruct (isWhiteSpace d) eqn:Hd; [exact IH|]. by intros [= <- <-].
Qed.

Lemma dropWhiteSpace_suffix (s : jsstring) :
  exists spaces, s = spaces ++ dropWhiteSpace s.
Proof.
  induction s as [|d s [spaces IH]]; [by exists []|]. simpl.
  destruct (isWhiteSpace d); [|by exists []].
  exists (d :: spaces). simpl. by f_equal.
Qed.

(** A trimmed text that is not empty neither starts nor ends with white
    space. *)
Lemma trim_ends (s : jsstring) :
  trim s <> [] ->
  (exists c t, trim s = c :: t /\ isWhiteSpace c = false)
  /\ (exists c t, trim s = t ++ [c] /\ isWhiteSpace c = false).
Proof.
  unfold trim. intros Hne.
  destruct (dropWhiteSpace (rev (dropWhiteSpace s))) as [|c t] eqn:Hback; [done|].
  pose proof (dropWhiteSpace_head _ _ _ Hback) as Hc.
  split.
  - destruct (dropWhiteSpace_suffix (rev (dropWhiteSpace s))) as [spaces Hsplit].
    rewrite Hback in Hsplit.
    destruct (dropWhiteSpace s) as [|d u] eqn:Hfront.
    { simpl in Hsplit. by destruct spaces. }
    pose proof (dropWhiteSpace_head _ _ _ Hfront) as Hd.
    assert (Hrev : rev (c :: t) ++ rev spaces = d :: u).
    { rewrite <- rev_app_distr, <- Hsplit. apply rev_involutive. }
    destruct (rev (c :: t)) as [|e v] eqn:Hv.
    { apply (f_equal (@length N)) in Hv. rewrite length_rev in Hv. done. }
    simpl in Hrev. injection Hrev as -> _. eauto.
  - exists c, (rev t). split; [|done]. simpl. done.
Qed.

Lemma slice_to_length {A} (n : Z) (l : list A) :
  length (slice_to n l)
  = if (n <? 0)%Z then Z.to_nat (Z.of_nat (length l) + n)
    else Nat.min (Z.to_nat n) (length l).
Proof.
  unfold slice_to. rewrite length_take. destruct (n <? 0)%Z eqn:Hn.
  - apply Z.ltb_lt in Hn. lia.
  - apply Z.ltb_ge in Hn. lia.
Qed.

Lemma set_add_length_le {K} `{EqDecision K} (x : K) (s : list K) :
  (length (set_add x s) <= S (length s))%nat.
Proof.
  induction s as [|y s IH]; simpl; [lia|].
  destruct (decide (x = y)); simpl; lia.
Qed.

Lemma map_set_fresh {K V} `{EqDecision K} (k : K) (v : V) (m : list (K * V)) :
  k ∉ map_keys m -> map_set k v m = m ++ [(k, v)].
Proof.
  induction m as [|[k' v'] m IH]; intros Hk; [done|]. simpl in *.
  apply not_elem_of_cons in Hk as [Hne Hk].
  destruct (decide (k = k')); [done|]. by rewrite IH.
Qed.

Lemma map_of_entries_distinct {K V} `{EqDecision K} (es : list (K * V)) :
  NoDup es.*1 -> map_of_entries es = es.
Proof.
  unfold map_of_entries.
  assert (Hgen : forall acc, NoDup (acc ++ es).*1 ->
            foldl (fun m e => map_set e.1 e.2 m) acc es = acc ++ es).
  { induction es as [|[k v] es IH]; intros acc Hnd; simpl.
    - by rewrite app_nil_r.
    - rewrite map_set_fresh.
      + rewrite IH; [by rewrite <- app_assoc|]. by rewrite <- app_assoc.
      + rewrite fmap_app in Hnd. apply NoDup_app in Hnd as (_ & Hdisj & _).
        intros Hk. apply (Hdisj k Hk). left. }
  intros Hnd. by apply (Hgen []).
Qed.

(** X6.  The stubs of the RBC listing: each has a title without white space at
    either end and a URL, neither of them empty, and comes from an anchor
    of the page; for a non-negative [maxArticles] there are at most that
    many, and never more than anchors.  A listing without repeated URLs
    passes through in its order, cut to [maxArticles]. *)
Theorem listing_stubs_wellformed (maxArticles : Z) (anchors : list RBC.Anchor) :
  let stubs := RBC.extractListing maxArticles anchors in
  (forall stub, stub ∈ stubs ->
     RBC.article_url stub <> []
     /\ (exists anchor, anchor ∈ anchors
           /\ RBC.title stub = trim (RBC.innerText anchor)
           /\ RBC.article_url stub = RBC.href anchor)
     /\ (exists c t, RBC.title stub = c :: t /\ isWhiteSpace c = false)
     /\ (exists c t, RBC.title stub = t ++ [c] /\ isWhiteSpace c = false))
  /\ (length stubs <= length anchors)%nat
  /\ ((0 <= maxArticles)%Z -> (Z.of_nat (length stubs) <= maxArticles)%Z)
  /\ (NoDup (RBC.article_url <$> RBC.listArticles anchors) ->
      stubs = slice_to maxArticles (RBC.listArticles anchors)).
Proof.
  intros stubs.
  assert (Hlisted : forall stub, stub ∈ RBC.listArticles anchors ->
            RBC.title stub <> [] /\ RBC.article_url stub <> []
            /\ exists anchor, anchor ∈ anchors
                 /\ RBC.title stub = trim (RBC.innerText anchor)
                 /\ RBC.article_url stub = RBC.href anchor).
  { intros stub Hin. unfold RBC.listArticles in Hin.
    apply list_elem_of_In, filter_In in Hin as [Hin Hkeep].
    apply andb_true_iff in Hkeep as [Ht Hu].
    apply negb_true_iff, bool_decide_eq_false in Ht, Hu.
    apply in_map_iff in Hin as (anchor & <- & Hanchor).
    split; [done|]. split; [done|]. exists anchor.
    by rewrite list_elem_of_In. }
  assert (Hunique : forall stub, stub ∈ RBC.uniqueArticles (RBC.listArticles anchors) ->
            stub ∈ RBC.listArticles anchors).
  { intros stub Hin. apply uniqueArticles_last in Hin.
    apply last_Some_elem_of, list_elem_of_filter in Hin. apply Hin. }
  assert (Hlen : (length (RBC.uniqueArticles (RBC.listArticles anchors))
                  <= length anchors)%nat).
  { transitivity (length (RBC.listArticles anchors)).
    - rewrite <- (length_fmap RBC.article_url (RBC.uniqueArticles _)),
        uniqueArticles_urls.
      rewrite <- (length_fmap RBC.article_url (RBC.listArticles anchors)).
      generalize (RBC.article_url <$> RBC.listArticles anchors). intros l.
      induction l as [|x l IH]; simpl; [lia|].
      pose proof (length_filter (fun y => y <> x) (Spec.first_seen l)). lia.
    - unfold RBC.listArticles.
      pose proof (List.filter_length_le
        (fun article => negb (bool_decide (RBC.title article = []))
                        && negb (bool_decide (RBC.article_url article = [])))
        (map (fun element => {| RBC.title := trim (RBC.innerText element);
                                RBC.article_url := RBC.href element |}) anchors)) as Hle.
      rewrite length_map in Hle. exact Hle. }
  split; [|split; [|split]].
  - intros stub Hin. apply elem_of_slice_to, Hunique, Hlisted in Hin.
    destruct Hin as (Ht & Hu & anchor & Hanchor & Htitle & Hurl).
    split; [done|]. split; [eauto|].
    rewrite Htitle in Ht |- *. by apply trim_ends.
  - unfold stubs, RBC.extractListing, RBC.limitedArticles.
    rewrite slice_to_length.
    destruct (maxArticles <? 0)%Z eqn:Hn; [apply Z.ltb_lt in Hn|]; lia.
  - intros Hmax. unfold stubs, RBC.extractListing, RBC.limitedArticles.
    rewrite slice_to_length. apply Z.ltb_ge in Hmax. rewrite Hmax. lia.
  - intros Hnd. unfold stubs, RBC.extractListing, RBC.limitedArticles. f_equal.
    unfold RBC.uniqueArticles. rewrite map_of_entries_distinct.
    + unfold map_values.
      change (map ?f ?l) with (f <$> l). rewrite <- list_fmap_compose.
      apply list_fmap_id.
    + change (map ?f ?l) with (f <$> l). by rewrite <- list_fmap_compose.
Qed.

Lemma tally_bounds (lexicon : list jsstring) (tokens : list jsstring) :
  (0 <= Spec.tally lexicon tokens <= Z.of_nat (length tokens))%Z.
Proof.
  unfold Spec.tally. pose proof (List.filter_length_le (Spec.counts_for lexicon) tokens).
  lia.
Qed.

Lemma split_from_nonempty (in_run : bool) (s : jsstring) :
  (1 <= length (split_from in_run s))%nat.
Proof.
  destruct (split_from_pieces in_run s) as [Hne _].
  destruct (split_from in_run s); [done|simpl; lia].
Qed.

Lemma lower_unit_high (c : N) : (1072 <= c)%N -> lower_unit c = c.
Proof.
  intros Hc. unfold lower_unit.
  rewrite (proj2 (N.leb_gt c 90)), (proj2 (N.leb_gt c 222)),
    (proj2 (N.leb_gt c 1039)), (proj2 (N.leb_gt c 1071)) by lia.
  by rewrite !andb_false_r.
Qed.

Lemma lower_unit_low :
  forallb (fun c => (lower_unit (lower_unit c) =? lower_unit c)%N)
          (map N.of_nat (seq 0 1072)) = true.
Proof. vm_compute. reflexivity. Qed.

Lemma lower_unit_idempotent (c : N) : lower_unit (lower_unit c) = lower_unit c.
Proof.
  destruct (N.le_gt_cases 1072 c) as [Hhigh|Hlow].
  - rewrite (lower_unit_high c Hhigh). exact (lower_unit_high c Hhigh).
  - pose proof lower_unit_low as Hall. rewrite forallb_forall in Hall.
    apply N.eqb_eq, Hall, in_map_iff. exists (N.to_nat c).
    split; [apply N2Nat.id|]. apply in_seq. lia.
Qed.

Lemma toLowerCase_idempotent (s : jsstring) :
  toLowerCase (toLowerCase s) = toLowerCase s.
Proof.
  unfold toLowerCase. rewrite map_map. apply map_ext, lower_unit_idempotent.
Qed.

(** X9.  Bounds of the sentiment scores.  There is always at least one token
    (the empty text splits into one empty token), both scores lie between
    0 and the token count, so [neutral] lies between minus and plus the
    token count; the label is [neutral] exactly on a tie; and the letter
    case of the text does not matter. *)
Theorem sentiment_bounds (text : jsstring) :
  let n := Z.of_nat (length (split_whitespace (toLowerCase text))) in
  let s := RBC.getTextSentiment text in
  (1 <= n)%Z
  /\ (0 <= positive s <= n)%Z
  /\ (0 <= negative s <= n)%Z
  /\ (- n <= neutral s <= n)%Z
  /\ (positive s + negative s + neutral s = n)%Z
  /\ (sentiment s = js "neutral" <-> positive s = negative s)
  /\ RBC.getTextSentiment (toLowerCase text) = s
  /\ RBC.getTextSentiment [] = {| positive := 0; negative := 0; neutral := 1;
                                  sentiment := js "neutral" |}.
Proof.
  intros n s. unfold s, RBC.getTextSentiment. rewrite foldl_score.
  cbn [positive negative neutral sentiment fst snd]. fold n.
  pose proof (tally_bounds RBC.positiveWords (split_whitespace (toLowerCase text))) as Hp.
  pose proof (tally_bounds RBC.negativeWords (split_whitespace (toLowerCase text))) as Hn.
  pose proof (split_from_nonempty false (toLowerCase text)) as Hone.
  fold (split_whitespace (toLowerCase text)) in Hone. fold n in Hp, Hn.
  rewrite !Z.add_0_l.
  split; [lia|]. split; [lia|]. split; [lia|]. split; [lia|]. split; [lia|].
  split; [|split; [|reflexivity]].
  - set (p := Spec.tally RBC.positiveWords _).
    set (m := Spec.tally RBC.negativeWords _).
    destruct (Z.ltb_spec m p) as [H1|H1]; [split; [by intros [=]|lia]|].
    destruct (Z.ltb_spec p m) as [H2|H2]; [split; [by intros [=]|lia]|].
    split; [lia|done].
  - rewrite toLowerCase_idempotent, foldl_score. rewrite !Z.add_0_l. done.
Qed.

Lemma sum_map_set_any (k : jsstring) (w : nat) (m : list (jsstring * nat)) :
  (sum_list (map_set k w m).*2 + default 0 (map_get k m)
   = sum_list m.*2 + w)%nat.
Proof.
  induction m as [|[k' v'] m IH]; simpl; [lia|].
  destruct (decide (k = k')) as [->|Hne]; simpl in *; unfold fmap in *; lia.
Qed.

Lemma sum_map_set (k : jsstring) (m : list (jsstring * nat)) :
  sum_list (map_set k (default 0 (map_get k m) + 1) m).*2 = S (sum_list m.*2).
Proof.
  pose proof (sum_map_set_any k (default 0 (map_get k m) + 1) m). lia.
Qed.

Lemma categories_step (acc : list (jsstring * nat)) (articles : list object) :
  let counted := foldl (fun acc article =>
                   map_set (RBC.category_key article)
                     (default 0 (map_get (RBC.category_key article) acc) + 1) acc)
                   acc articles in
  sum_list counted.*2 = (sum_list acc.*2 + length articles)%nat
  /\ (forall k, default 0 (map_get k counted)
                = (default 0 (map_get k acc) + in_category k articles)%nat)
  /\ map_keys counted
     = foldl (fun s x => set_add x s) (map_keys acc) (RBC.category_key <$> articles).
Proof.
  revert acc. induction articles as [|a articles IH]; intros acc; simpl.
  { split; [lia|]. split; [intros; unfold in_category; simpl; lia|done]. }
  destruct (IH (map_set (RBC.category_key a)
                  (default 0 (map_get (RBC.category_key a) acc) + 1) acc))
    as (Hsum & Hcount & Hkeys).
  split; [|split].
  - rewrite Hsum, sum_map_set. lia.
  - intros k. rewrite Hcount, map_get_set. unfold in_category.
    rewrite filter_cons.
    destruct (decide (k = RBC.category_key a)) as [->|Hne].
    + rewrite decide_True by done. simpl. lia.
    + rewrite decide_False by congruence. done.
  - by rewrite Hkeys, map_keys_set.
Qed.

(** X10.  The per-category counts of [runParser]: every category of the records
    is listed once, with the number of records that bear it, which is at
    least one; the counts add up to the number of records. *)
Theorem categoriesCount_counts (articles : list object) :
  (forall k, k ∈ map_keys (RBC.categoriesCount articles)
             <-> exists a, a ∈ articles /\ RBC.category_key a = k)
  /\ NoDup (map_keys (RBC.categoriesCount articles))
  /\ (forall k n, (k, n) ∈ RBC.categoriesCount articles ->
        n = in_category k articles /\ (1 <= n)%nat)
  /\ sum_list (RBC.categoriesCount articles).*2 = length articles.
Proof.
  destruct (categories_step [] articles) as (Hsum & Hcount & Hkeys).
  fold (RBC.categoriesCount articles) in Hsum, Hcount, Hkeys.
  change (map_keys (@nil (jsstring * nat))) with (@nil jsstring) in Hkeys.
  rewrite foldl_set_add_nil in Hkeys.
  split.
  { intros k. rewrite Hkeys, elem_of_first_seen, list_elem_of_fmap.
    split; intros (a & ? & ?); exists a; done. }
  split; [rewrite Hkeys; apply NoDup_first_seen|].
  split; [|done].
  intros k n Hin.
  assert (Hget : map_get k (RBC.categoriesCount articles) = Some n).
  { apply map_get_elem; [|done]. rewrite Hkeys. apply NoDup_first_seen. }
  specialize (Hcount k). rewrite Hget in Hcount. simpl in Hcount.
  split; [done|]. subst n.
  assert (Hk : k ∈ RBC.category_key <$> articles).
  { apply elem_of_first_seen. rewrite <- Hkeys.
    apply list_elem_of_fmap. by exists (k, in_category k articles). }
  apply list_elem_of_fmap in Hk as (a & -> & Ha).
  unfold in_category.
  assert (Hmem : a ∈ filter (fun b => RBC.category_key b = RBC.category_key a) articles).
  { by apply list_elem_of_filter. }
  destruct (filter _ articles); [by apply elem_of_nil in Hmem|simpl; lia].
Qed.

Lemma startsWith_app (w t : jsstring) : startsWith w (w ++ t) = true.
Proof.
  induction w as [|c w IH]; [done|]. simpl. by rewrite N.eqb_refl, IH.
Qed.

Lemma startsWith_inv (w s : jsstring) :
  startsWith w s = true -> exists t, s = w ++ t.
Proof.
  revert s. induction w as [|c w IH]; intros s; [by exists s|].
  destruct s as [|d s]; [done|]. simpl. intros H.
  apply andb_true_iff in H as [Hc Hw]. apply N.eqb_eq in Hc. subst d.
  destruct (IH s Hw) as [t ->]. by exists t.
Qed.

Lemma omap_length_le {A B} (f : A -> option B) (l : list A) :
  (length (omap f l) <= length l)%nat.
Proof.
  induction l as [|x l IH]; [done|]. cbn [omap list_omap length].
  destruct (f x); cbn [length]; lia.
Qed.

Lemma host_slash (href : jsstring) :
  startsWith (js "/") href = true ->
  startsWith (js "https://meduza.io/") (js "https://meduza.io" ++ href) = true.
Proof.
  intros Hslash. apply startsWith_inv in Hslash as [t ->].
  change (js "https://meduza.io" ++ js "/" ++ t)
    with (js "https://meduza.io/" ++ t). apply startsWith_app.
Qed.

Lemma resolveMenu_first (query : jsstring -> list Meduza.MenuItem)
    (selectors : list jsstring) :
  Meduza.resolveMenu query selectors = []
  \/ exists selector, selector ∈ selectors
       /\ Meduza.resolveMenu query selectors = query selector.
Proof.
  induction selectors as [|x selectors IH]; [by left|]. simpl.
  destruct (0 <? _)%Z.
  - right. exists x. split; [left|done].
  - destruct IH as [->|(selector & Hin & ->)]; [by left|].
    right. exists selector. split; [by right|done].
Qed.

(** X13.  The categories read off the menu.  A page that cannot be loaded gives
    the empty list, not an exception.  Every category that is returned has
    a name that is not empty and mentions neither the subscription nor the
    search entry, and a URL on the site: the host, a slash, and an [href]
    that was not the root and held no [http]; all of them come, in page
    order, from the elements of one menu selector. *)
Theorem menu_categories_wellformed :
  (forall e, Meduza.parseMeduzaCategories (Throw e) = [])
  /\ (forall (query : jsstring -> list Meduza.MenuItem) (category : Meduza.Category),
        category ∈ Meduza.parseMeduzaCategories (Return query) ->
        startsWith (js "https://meduza.io/") (Meduza.category_url category) = true
        /\ Meduza.name category <> []
        /\ includes (Meduza.name category) (js "Подписаться") = false
        /\ includes (Meduza.name category) (js "Поиск") = false
        /\ exists selector element href,
             selector ∈ Meduza.menuSelectors
             /\ element ∈ query selector
             /\ Meduza.menu_href element = Some href
             /\ href <> js "/" /\ includes href (js "http") = false
             /\ Meduza.name category = trim (Meduza.menu_text element)
             /\ (Meduza.category_url category = js "https://meduza.io" ++ href
                 \/ Meduza.category_url category
                    = js "https://meduza.io/" ++ href))
  /\ (forall (query : jsstring -> list Meduza.MenuItem),
        exists elements,
          (elements = [] \/ exists selector, selector ∈ Meduza.menuSelectors
                                             /\ elements = query selector)
          /\ Meduza.parseMeduzaCategories (Return query)
             = omap Meduza.menu_entry elements
          /\ (length (Meduza.parseMeduzaCategories (Return query))
              <= length elements)%nat).
Proof.
  split; [done|]. split.
  - intros query category Hin. unfold Meduza.parseMeduzaCategories in Hin.
    apply list_elem_of_omap in Hin as (element & Helement & Hentry).
    destruct (resolveMenu_first query Meduza.menuSelectors)
      as [Hnone|(selector & Hselector & Hfound)].
    { rewrite Hnone in Helement. by apply elem_of_nil in Helement. }
    rewrite Hfound in Helement.
    unfold Meduza.menu_entry in Hentry.
    destruct (Meduza.menu_href element) as [href|] eqn:Hhref; [|done].
    destruct (_ && _) eqn:Hkeep; [|done].
    apply (inj Some) in Hentry. subst category.
    unfold Meduza.name, Meduza.category_url. cbv beta iota.
    repeat (apply andb_true_iff in Hkeep as [Hkeep ?]).
    repeat match goal with
    | H : negb _ = true |- _ => apply negb_true_iff in H
    | H : bool_decide _ = false |- _ => apply bool_decide_eq_false in H
    end.
    split.
    { destruct (startsWith (js "/") href) eqn:Hslash; cbv iota.
      - exact (host_slash href Hslash).
      - exact (startsWith_app (js "https://meduza.io/") href). }
    split; [done|]. split; [done|]. split; [done|].
    exists selector, element, href. repeat split; try done.
    destruct (startsWith (js "/") href); cbv iota; [left|right]; reflexivity.
  - intros query. exists (Meduza.resolveMenu query Meduza.menuSelectors).
    split; [apply resolveMenu_first|]. split; [done|].
    unfold Meduza.parseMeduzaCategories. apply omap_length_le.
Qed.

Lemma address_prefix (link : Meduza.Node) :
  startsWith (js "https://meduza.io") (Meduza.address link) = true.
Proof. unfold Meduza.address. apply startsWith_app. Qed.

Lemma stub_of_block_url (element : Meduza.Block) :
  Meduza.url (Meduza.stub_of_block element) = []
  \/ startsWith (js "https://meduza.io")
       (Meduza.url (Meduza.stub_of_block element)) = true.
Proof.
  unfold Meduza.stub_of_block, Meduza.url.
  destruct (Meduza.block_title element), (Meduza.block_link element),
    (Meduza.title_closest element), (Meduza.block_closest element);
    cbv beta iota zeta;
    first [left; reflexivity | right; apply address_prefix].
Qed.

Lemma listing_urls {folding : Meduza.CaseFolding} (document : Meduza.Document)
    (F : list jsstring)
    (stub : Meduza.Stub) :
  stub ∈ filter (Spec.passes F) (Spec.stubs document) ->
  startsWith (js "https://meduza.io") (Meduza.url stub) = true.
Proof.
  intros Hin. apply list_elem_of_filter in Hin as [_ Hin].
  unfold Spec.stubs in Hin.
  destruct (Meduza.resolve document Meduza.selectors).2 as [|b found].
  - apply list_elem_of_In, in_map_iff in Hin as (link & <- & _).
    apply address_prefix.
  - apply list_elem_of_filter in Hin as [Hurl Hin].
    apply list_elem_of_In, in_map_iff in Hin as (element & <- & _).
    by destruct (stub_of_block_url element).
Qed.

(** X14.  Every stub the Meduza listing returns has a URL on the site, so the
    branch of the detail loop for stubs without URL is never taken: each
    record of the run is the stub merged with the details of its page, or
    the bare stub when the visit threw.  The run returns as many records
    as stubs, at most [maxArticles] for a non-negative [maxArticles]. *)
Theorem meduza_records_from_visits {folding : Meduza.CaseFolding}
    (world : Meduza.World)
    (document : Meduza.Document) (categories : list jsstring) (maxArticles : Z) :
  Meduza.listing world = Return document ->
  exists stubs records,
    Meduza.extractListing document categories = Return stubs
    /\ Meduza.parseMeduzaWebsite world categories maxArticles = Return records
    /\ length records = length (slice_to maxArticles stubs)
    /\ ((0 <= maxArticles)%Z -> (Z.of_nat (length records) <= maxArticles)%Z)
    /\ (forall stub, stub ∈ stubs ->
          startsWith (js "https://meduza.io") (Meduza.url stub) = true)
    /\ forall i stub record,
         slice_to maxArticles stubs !! i = Some stub ->
         records !! i = Some record ->
         match Meduza.visit world i with
         | Return page =>
           record = map_of_entries (Meduza.object_of stub
                                    ++ Meduza.extractDetails page)
         | Throw _ => record = Meduza.object_of stub
         end.
Proof.
  intros Hlisting. unfold Meduza.parseMeduzaWebsite. rewrite Hlisting.
  rewrite extractListing_offered. eexists _, _.
  split; [done|]. split; [done|]. split; [by rewrite length_imap|].
  split; [|split].
  - intros Hmax. rewrite length_imap, slice_to_length.
    apply Z.ltb_ge in Hmax. rewrite Hmax. lia.
  - intros stub. apply listing_urls.
  - intros i stub record Hstub Hrecord.
    rewrite list_lookup_imap, Hstub in Hrecord. simpl in Hrecord.
    injection Hrecord as <-. unfold Meduza.detail.
    assert (Hurl : Meduza.url stub <> []).
    { apply list_elem_of_lookup_2, elem_of_slice_to, listing_urls in Hstub.
      intros Hnil. rewrite Hnil in Hstub. done. }
    rewrite bool_decide_eq_false_2 by done.
    by destruct (Meduza.visit world i).
Qed.

(** X15.  Merging the details into a stub changes none of the stub fields: the
    record keeps title, url, category, date, imageUrl and summary as they
    were and gains content, author, tags and hasVideo after them. *)
Theorem meduza_merge_keeps_stub (stub : Meduza.Stub) (page : Meduza.DetailDom) :
  let merged := map_of_entries (Meduza.object_of stub ++ Meduza.extractDetails page) in
  (forall key, key ∈ map_keys (Meduza.object_of stub) ->
     map_get key merged = map_get key (Meduza.object_of stub))
  /\ map_keys merged
     = map_keys (Meduza.object_of stub)
       ++ [js "content"; js "author"; js "tags"; js "hasVideo"]
  /\ map_get (js "title") merged = Some (Str (Meduza.title stub))
  /\ map_get (js "url") merged = Some (Str (Meduza.url stub))
  /\ map_get (js "category") merged = Some (Str (Meduza.category stub))
  /\ map_get (js "error") merged = None.
Proof.
  intros merged. unfold merged, Meduza.object_of, Meduza.extractDetails.
  destruct (Meduza.date stub), (Meduza.summary stub);
    (split; [|repeat split; reflexivity]);
    intros key Hin; vm_compute in Hin;
    repeat (apply elem_of_cons in Hin as [->|Hin]; [reflexivity|]);
    by apply elem_of_nil in Hin.
Qed.

Lemma run_records_shape cfg world schedule now s articles s' :
  RBC.parseRBCWebsite cfg world schedule now s = Some (Return articles, s') ->
  Forall run_record articles.
Proof.
  unfold RBC.parseRBCWebsite. intros Hrun.
  destruct (RBC.tryWithRetry _ _ _ _) as [[[]|e] r1].
  - destruct (RBC.detailStage _ _ _ _ _) as [[[records|e] s1]|] eqn:Hstage;
      [| |done].
    + injection Hrun as -> ->.
      apply detailStage_records in Hstage as [_ Htasks].
      apply Forall_lookup. intros i r Hr.
      destruct (Htasks i r Hr) as (stub & t & s0 & s1 & _ & _ & Hsettle).
      apply settle_record in Hsettle.
      destruct (outcome _ _) as [d|[|m]]; [|done|]; subst r.
      * left. eauto.
      * right. eauto.
    + destruct (RBC.logError _ _ _ _ _) as [[[]|e'] s2]; [|done].
      injection Hrun as <- <-. constructor.
  - destruct (RBC.logError _ _ _ _ _) as [[[]|e'] s2]; [|done].
    injection Hrun as <- <-. constructor.
Qed.

Lemma filter_split_length {A} (f : A -> bool) (l : list A) :
  (length (List.filter f l) + length (List.filter (fun x => negb (f x)) l)
   = length l)%nat.
Proof.
  induction l as [|x l IH]; [done|]. simpl. destruct (f x); simpl; lia.
Qed.

Lemma filter_bounded {A} (f : A -> bool) (P : A -> Prop)
    `{!forall x, Decision (P x)} (l : list A) :
  Forall (fun x => P x -> f x = false) l ->
  (length (List.filter f l) <= length (filter (fun x => ~ P x) l))%nat.
Proof.
  induction 1 as [|x l Hx _ IH]; [done|]. simpl. rewrite filter_cons.
  destruct (decide (~ P x)) as [Hn|Hp].
  - destruct (f x); simpl; lia.
  - apply dec_stable in Hp. rewrite (Hx Hp). done.
Qed.

(** X11.  The side file and the content statistics of a run.  Records with and
    without content split the run in two; every degraded record is among
    those without content, the ones written to the side file; and a
    degraded record counts for none of the tag, image and video
    statistics. *)
Theorem degraded_records_in_statistics (cfg : RBC.Config) (world : RBC.World)
    (schedule : RBC.Schedule) (now : jsstring) (s s' : RBC.Shared)
    (articles : list object) :
  RBC.parseRBCWebsite cfg world schedule now s = Some (Return articles, s') ->
  let successes := length (filter (fun r => ~ degraded_record r) articles) in
  (length (RBC.validArticles articles) + length (RBC.invalidArticles articles)
   = RBC.totalArticles articles)%nat
  /\ RBC.articlesWithContent articles = length (RBC.validArticles articles)
  /\ (forall r, r ∈ articles -> degraded_record r ->
        In r (RBC.invalidArticles articles))
  /\ (RBC.articlesWithContent articles <= successes)%nat
  /\ (RBC.articlesWithTags articles <= successes)%nat
  /\ (RBC.articlesWithImages articles <= successes)%nat
  /\ (RBC.articlesWithVideos articles <= successes)%nat.
Proof.
  intros Hrun successes. apply run_records_shape in Hrun.
  assert (Hdegraded : Forall (fun r => degraded_record r ->
            truthy (map_get (js "content") r) = false
            /\ RBC.has_tags r = false
            /\ truthy (map_get (js "imageUrl") r) = false
            /\ truthy (map_get (js "hasVideo") r) = false) articles).
  { eapply Forall_impl; [exact Hrun|]. intros r [(a & d & t & ->)|(a & t & m & ->)].
    - intros [x Hx]. done.
    - intros _. repeat split; reflexivity. }
  split; [apply filter_split_length|]. split; [done|]. split.
  - intros r Hr Hd. apply filter_In. split; [by apply list_elem_of_In|].
    rewrite Forall_forall in Hdegraded.
    destruct (Hdegraded r Hr Hd) as [-> _]. done.
  - repeat split; apply filter_bounded;
      (eapply Forall_impl; [exact Hdegraded|]); intros r Hr Hd; apply (Hr Hd).
Qed.

(** X12.  Request interception.  Whatever the handler of an article page aborts,
    the handler of the listing page aborts too; image, media and font
    requests are aborted on both kinds of page whatever their URL; a
    request of another type is aborted on an article page only when its URL
    mentions advertising, so analytics calls and style sheets, which the
    listing page aborts, go through there. *)
Theorem interception_rules (resourceType requestUrl : jsstring) :
  (RBC.abortsOnArticle resourceType requestUrl = true ->
   RBC.abortsOnListing resourceType requestUrl = true)
  /\ (RBC.heavy resourceType = true ->
      RBC.abortsOnArticle resourceType requestUrl = true
      /\ RBC.abortsOnListing resourceType requestUrl = true)
  /\ (RBC.heavy resourceType = false ->
      RBC.abortsOnArticle resourceType requestUrl
      = includes requestUrl (js "advertising"))
  /\ (RBC.heavy resourceType = false ->
      includes requestUrl (js "advertising") = false ->
      RBC.abortsOnArticle resourceType requestUrl = false
      /\ RBC.abortsOnListing resourceType requestUrl
         = includes requestUrl (js "analytics")
           || RBC.endsWith requestUrl (js ".css")).
Proof.
  unfold RBC.abortsOnArticle, RBC.abortsOnListing.
  split; [|split; [|split]].
  - intros H. apply orb_true_iff in H as [H|H]; rewrite H; [done|].
    by rewrite orb_true_r.
  - intros ->. done.
  - intros ->. done.
  - intros -> ->. done.
Qed.

(** X17.  Where the default title applies.  A stub of the fallback path never
    has an empty title: blank link text is replaced by the default.  A stub
    of the main path takes the default only when the block has neither a
    title element nor a link; a title element with blank text leaves the
    title empty. *)
Theorem meduza_title_defaults :
  (forall link, Meduza.title (Meduza.stub_of_link link) <> [])
  /\ (forall link,
        trim (Meduza.innerText (Meduza.link_node link)) = [] ->
        Meduza.title (Meduza.stub_of_link link) = js "Без названия")
  /\ (forall element,
        Meduza.block_title element = None -> Meduza.block_link element = None ->
        Meduza.title (Meduza.stub_of_block element) = js "Без названия")
  /\ (forall element node,
        Meduza.block_title element = Some node ->
        Meduza.title (Meduza.stub_of_block element) = trim (Meduza.innerText node))
  /\ (forall element node,
        Meduza.block_title element = None -> Meduza.block_link element = Some node ->
        Meduza.title (Meduza.stub_of_block element) = trim (Meduza.innerText node)).
Proof.
  split; [|split; [|split; [|split]]].
  - intros link. unfold Meduza.stub_of_link, Meduza.title, Meduza.or_else.
    destruct (trim _); done.
  - intros link Hblank. unfold Meduza.stub_of_link, Meduza.title.
    by rewrite Hblank.
  - intros element Ht Hl. unfold Meduza.stub_of_block, Meduza.title.
    by rewrite Ht, Hl.
  - intros element node Ht. unfold Meduza.stub_of_block, Meduza.title.
    by rewrite Ht.
  - intros element node Ht Hl. unfold Meduza.stub_of_block, Meduza.title.
    by rewrite Ht, Hl.
Qed.

Lemma zero_budget_throws_witness :
  exists message,
    RBC.parseRBCWebsite no_retries sample_world sample_schedule
      (js "2024-05-01T07:30:10.000Z") idle
    = Some (Throw (Error message), idle).
Proof.
  exact (proj2 zero_budget_throws no_retries sample_world sample_schedule
           (js "2024-05-01T07:30:10.000Z") idle eq_refl).
Defined.

Lemma offline_fails (j : nat) :
  (1 <= j <= RBC.maxRetries RBC.config)%nat -> is_Some (RBC.listingSite offline j).
Proof. intros _. by eexists. Defined.

Lemma listing_failure_returns_empty_witness :
  exists last,
    RBC.listingSite offline (RBC.maxRetries RBC.config) = Some last
    /\ exists s',
         RBC.parseRBCWebsite RBC.config offline sample_schedule
           (js "2024-05-01T07:30:10.000Z") idle
         = Some (Return [], s').
Proof.
  destruct (listing_failure_returns_empty RBC.config offline sample_schedule
              (js "2024-05-01T07:30:10.000Z") idle) as (last & Hlast & Hrun).
  - simpl. lia.
  - exact offline_fails.
  - exists last. split; [exact Hlast|]. eexists. exact Hrun.
Defined.

Lemma progress_and_log_witness :
  exists records s',
    RBC.detailStage RBC.config sample_stubs sample_pages sample_schedule idle
    = Some (Return records, s')
    /\ RBC.progress s' = 3%nat.
Proof.
  assert (Hrun : exists records s',
    RBC.detailStage RBC.config sample_stubs sample_pages sample_schedule idle
    = Some (Return records, s')).
  { eexists _, _. vm_compute. reflexivity. }
  destruct Hrun as (records & s' & Hrun). exists records, s'.
  split; [exact Hrun|].
  exact (proj1 (progress_and_log _ _ _ _ _ _ _ Hrun)).
Defined.

Lemma unreachable_article_costs_witness :
  exists last r',
    RBC.site unreachable 3 = Some last
    /\ RBC.fetch RBC.config unreachable RBC.fresh = (Throw (Error last), r')
    /\ RBC.navigations r' = 3%nat
    /\ RBC.delays r' = [1000; 1000; 1000]%Z.
Proof.
  destruct (unreachable_article_costs RBC.config unreachable
              (default {| RBC.title := []; RBC.article_url := [] |} (head sample_stubs))
              (js "2024-05-01T07:30:10.000Z") idle)
    as (last & r' & Hlast & Hfetch & Hnav & Hdelays & _).
  - simpl. lia.
  - intros j _. by eexists.
  - exists last, r'. split; [exact Hlast|]. split; [exact Hfetch|].
    split; [exact Hnav|exact Hdelays].
Defined.

Lemma crashed_article_degraded_witness :
  exists record,
    (RBC.settle (js "2024-05-01T07:30:10.000Z")
       {| RBC.title := js "Школы"; RBC.article_url := js "https://www.rbc.ru/society/3" |}
       (RBC.fetch RBC.config crashing RBC.fresh).1 idle).1
    = Return record
    /\ map_get (js "error") record = Some (Str (js "Execution context was destroyed")).
Proof.
  eexists. split.
  - apply (crashed_article_degraded RBC.config crashing _ _
             (js "Execution context was destroyed") idle 1).
    + simpl. lia.
    + reflexivity.
    + reflexivity.
  - reflexivity.
Defined.

Lemma listing_stubs_wellformed_witness :
  (Z.of_nat (length (RBC.extractListing 2 (RBC.articleElements sample_world))) <= 2)%Z
  /\ RBC.extractListing 2 (RBC.articleElements sample_world)
     = slice_to 2 (RBC.listArticles (RBC.articleElements sample_world)).
Proof.
  destruct (listing_stubs_wellformed 2 (RBC.articleElements sample_world))
    as (_ & _ & Hbound & Hsame).
  split.
  - apply Hbound. lia.
  - apply Hsame. vm_compute. repeat constructor; intros H; inversion H; subst;
      repeat match goal with
      | H : _ ∈ _ :: _ |- _ => inversion H; clear H; subst
      | H : _ ∈ [] |- _ => inversion H
      end.
Defined.

Lemma rbc_row_reads_back_witness :
  Csv.parse_row (join (js ",") (map (RBC.cell sample_record)
                                    (RBC.allKeys [sample_record])))
  = Some (map (Csv.rbc_text sample_record) (RBC.allKeys [sample_record])).
Proof.
  refine (proj1 (rbc_row_reads_back [sample_record] sample_record _)).
  vm_compute. discriminate.
Defined.

Lemma meduza_row_reads_back_witness :
  Csv.parse_row (join (js ",") (map Meduza.cell (map_values sample_record)))
  = Some (map Csv.meduza_text (map_values sample_record)).
Proof.
  refine (proj1 (meduza_row_reads_back sample_record [] sample_record _)).
  vm_compute. discriminate.
Defined.

Lemma degraded_records_in_statistics_witness :
  exists articles s',
    RBC.parseRBCWebsite RBC.config sample_world sample_schedule
      (js "2024-05-01T07:30:10.000Z") idle
    = Some (Return articles, s')
    /\ (length (RBC.validArticles articles) + length (RBC.invalidArticles articles)
        = RBC.totalArticles articles)%nat.
Proof.
  assert (Hrun : exists articles s',
    RBC.parseRBCWebsite RBC.config sample_world sample_schedule
      (js "2024-05-01T07:30:10.000Z") idle = Some (Return articles, s')).
  { eexists _, _. vm_compute. reflexivity. }
  destruct Hrun as (articles & s' & Hrun). exists articles, s'.
  split; [exact Hrun|].
  exact (proj1 (degraded_records_in_statistics _ _ _ _ _ _ _ Hrun)).
Defined.

Lemma meduza_records_from_visits_witness :
  exists stubs records,
    Meduza.extractListing (folding := table_folding) front_page [] = Return stubs
    /\ Meduza.parseMeduzaWebsite (folding := table_folding) meduza_site [] 20%Z
       = Return records
    /\ length records = length (slice_to 20%Z stubs).
Proof.
  destruct (meduza_records_from_visits (folding := table_folding)
              meduza_site front_page [] 20%Z eq_refl)
    as (stubs & records & Hstubs & Hrun & Hlen & _).
  exists stubs, records. split; [exact Hstubs|]. split; [exact Hrun|exact Hlen].
Defined.

Example sample_run_counts :
  exists articles s',
    RBC.parseRBCWebsite RBC.config sample_world sample_schedule
      (js "2024-05-01T07:30:10.000Z") idle = Some (Return articles, s')
    /\ RBC.categoriesCount articles
       = [(js "Политика", 1%nat); (js "Экономика", 1%nat); (js "Общество", 1%nat)]
    /\ RBC.articlesWithContent articles = 2%nat
    /\ RBC.articlesWithTags articles = 2%nat
    /\ length (RBC.invalidArticles articles) = 1%nat.
Proof. eexists _, _. vm_compute. repeat split; reflexivity. Qed.
